(** * TRIEST streaming triangle counting: a shallow embedding

    Model of [src/HW3/Triest.py] ([TriestBase], [TriestImpr]) and of the
    [TriestImproved] class of [src/Asiignment3/Steammingtriangle.py].

    - Python exceptions are the error monad [result].
    - Python [float]s are IEEE binary64 values, kept exactly as integers in
      units of 2^-1074 (the smallest subnormal); every operation the code
      performs on them is rounded to nearest, ties to even, as CPython does
      (int true division is correctly rounded and raises OverflowError on
      overflow; float addition overflows to infinity).
    - A Python [frozenset] of ints is the canonical list of its elements; a
      [set] of frozensets is a [gset (list Z)]; a [defaultdict] is a
      [gmap] read with default 0.
    - [random.random()] is an oracle value [k * 2^-53] with
      [0 <= k < 2^53]; [random.choice(list(S))] picks an oracle index
      into [elements S]. *)

From Stdlib Require Import ZArith Lia Ascii String.
From Stdlib Require Import Floats.SpecFloat.
From stdpp Require Import base gmap list sets.

Open Scope Z_scope.

(* ------------------------------------------------------------------ *)
(** ** Python exceptions *)

Inductive py_error :=
  | ValueError
  | TypeError
  | ZeroDivisionError
  | OverflowError
  | IndexError
  | UnicodeDecodeError.

Inductive result (A : Type) :=
  | Ok (a : A)
  | Err (e : py_error).
Arguments Ok {A} a.
Arguments Err {A} e.

(** Sequencing: an exception propagates. *)
Definition rbind {A B} (m : result A) (f : A -> result B) : result B :=
  match m with Ok a => f a | Err e => Err e end.

Notation "'let*' x ':=' m 'in' k" := (rbind m (fun x => k))
  (at level 200, x binder, m at level 100, right associativity).

(* ------------------------------------------------------------------ *)
(** ** Python floats *)

(** A binary64 value; [Fin n] is the finite value [n * 2^-1074]. *)
Inductive pyfloat :=
  | Fin (n : Z)
  | PInf
  | NInf
  | NaN.

Definition units_exp : Z := 1074.
(** [2^1024] in units: the first value that overflows. *)
Definition overflow_units : Z := 2 ^ (1024 + units_exp).
Definition one : pyfloat := Fin (2 ^ units_exp).

(** Round [p / q] (p >= 0, q > 0) to an integer, ties to even. *)
Definition rne (p q : Z) : Z :=
  let d := p / q in
  let r := p mod q in
  match Z.compare (2 * r) q with
  | Lt => d
  | Gt => d + 1
  | Eq => if Z.even d then d else d + 1
  end.

(** Round the non-negative rational [p / q] (already in units) to the
    nearest binary64 value with unbounded exponent: 53 significant bits,
    and never finer than one unit (subnormals). *)
Definition round_pos (p q : Z) : Z :=
  let k := Z.max 0 (Z.log2 (p / q) - 52) in
  rne p (q * 2 ^ k) * 2 ^ k.

(** CPython's [int / int] ([long_true_divide]): correctly rounded;
    ZeroDivisionError on a zero divisor, OverflowError past DBL_MAX. *)
Definition py_truediv (a b : Z) : result pyfloat :=
  if Z.eqb b 0 then Err ZeroDivisionError
  else
    let n := round_pos (Z.abs a * 2 ^ units_exp) (Z.abs b) in
    if Z.leb overflow_units n then Err OverflowError
    else Ok (Fin (Z.sgn a * Z.sgn b * n)).

(** CPython's [float(n)] for an int (also used by [int + float] and
    [float * int]): correctly rounded, OverflowError past DBL_MAX. *)
Definition py_float_of_int (a : Z) : result pyfloat :=
  let n := round_pos (Z.abs a * 2 ^ units_exp) 1 in
  if Z.leb overflow_units n then Err OverflowError
  else Ok (Fin (Z.sgn a * n)).

(** Float addition: the exact sum rounded; overflow gives an infinity. *)
Definition float_add (x y : pyfloat) : pyfloat :=
  match x, y with
  | NaN, _ | _, NaN => NaN
  | PInf, NInf | NInf, PInf => NaN
  | PInf, _ | _, PInf => PInf
  | NInf, _ | _, NInf => NInf
  | Fin a, Fin b =>
      let s := a + b in
      let n := round_pos (Z.abs s) 1 in
      if Z.leb overflow_units n then (if Z.ltb 0 s then PInf else NInf)
      else Fin (Z.sgn s * n)
  end.

(** [x < y] on floats (false whenever a NaN is involved). *)
Definition float_ltb (x y : pyfloat) : bool :=
  match x, y with
  | NaN, _ | _, NaN => false
  | Fin a, Fin b => Z.ltb a b
  | NInf, NInf | PInf, _ => false
  | NInf, _ | _, PInf => true
  | Fin _, NInf => false
  end.

(** Python's builtin [max(a, b)]: [b] replaces [a] only if [b > a]. *)
Definition py_max (a b : pyfloat) : pyfloat :=
  if float_ltb a b then b else a.

(** Non-strict order used to state monotonicity: [x <= y]. *)
Definition float_leb (x y : pyfloat) : bool :=
  match x, y with
  | NaN, _ | _, NaN => false
  | Fin a, Fin b => Z.leb a b
  | NInf, _ | _, PInf => true
  | PInf, _ | _, NInf => false
  end.

(* ------------------------------------------------------------------ *)
(** ** Scaling factors *)

(** [TriestBase.xi] (HW3). *)
Definition xi_base (M t : Z) : result pyfloat :=
  if Z.leb t M then Ok one
  else
    let numerator := t * (t - 1) * (t - 2) in
    let denominator := M * (M - 1) * (M - 2) in
    let* q := py_truediv numerator denominator in
    Ok (py_max one q).

(** [TriestImpr.xi] (HW3): the weight eta(t). *)
Definition xi_impr (M t : Z) : result pyfloat :=
  if Z.ltb t 3 then Ok one
  else
    let* q := py_truediv ((t - 1) * (t - 2)) (M * (M - 1)) in
    Ok (py_max one q).

(** [TriestImproved.eta] (Asiignment3). *)
Definition eta_a3 (M t : Z) : result pyfloat :=
  let* q := py_truediv ((t - 1) * (t - 2)) (M * (M - 1)) in
  Ok (py_max one q).

(** Cross-check of the rounding model against the binary64 division of
    the Standard Library's [SpecFloat] on a few operands. *)
Definition spec_to_units (f : spec_float) : option Z :=
  match f with
  | S754_zero _ => Some 0
  | S754_finite s m e => Some ((if s then -1 else 1) * Z.pos m * 2 ^ (e + units_exp))
  | _ => None
  end.

Definition specfloat_div (a b : positive) : option Z :=
  spec_to_units (SFdiv 53 1024 (S754_finite false a 0) (S754_finite false b 0)).

Definition model_div (a b : positive) : option Z :=
  match py_truediv (Z.pos a) (Z.pos b) with Ok (Fin n) => Some n | _ => None end.

Example div_model_agrees :
  forallb (fun '(a, b) => bool_decide (model_div a b = specfloat_div a b))
    [(1, 3); (2, 3); (10, 7); (6, 6); (1, 10); (123456789, 1000);
     (19703248369745920, 6); (19703248369745929, 6); (7, 3 * 2 ^ 1100);
     (2 ^ 200 + 1, 3); (27021597764222978 * 27021597764222977 * 27021597764222976, 6)]%positive = true.
Proof. vm_compute. reflexivity. Qed.

(* ------------------------------------------------------------------ *)
(** ** Python text: decoding, [str.strip], [str.split], [int] *)

(** A line of the file is a byte string; [open(file, 'r')] hands the
    loop a [str], the bytes decoded as UTF-8 (the locale encoding of a
    usual Linux system) with [errors='strict']. A [str] is modelled as its
    list of code points. *)
Definition byte_val (c : ascii) : Z := Z.of_nat (nat_of_ascii c).

(** The payload of a continuation byte [10xxxxxx]. *)
Definition cont_bits (c : ascii) : option Z :=
  let b := byte_val c in
  if (128 <=? b) && (b <? 192) then Some (b - 128) else None.

(** Python's strict UTF-8 decoder: no overlong forms, no surrogates,
    nothing past U+10FFFF, no truncated sequence. *)
Fixpoint utf8_decode (bs : list ascii) : option (list Z) :=
  match bs with
  | [] => Some []
  | c0 :: r0 =>
      let b0 := byte_val c0 in
      if b0 <? 128 then option_map (cons b0) (utf8_decode r0)
      else
        match r0 with
        | [] => None
        | c1 :: r1 =>
            match cont_bits c1 with
            | None => None
            | Some x1 =>
                if (194 <=? b0) && (b0 <? 224) then
                  option_map (cons ((b0 - 192) * 64 + x1)) (utf8_decode r1)
                else
                  match r1 with
                  | [] => None
                  | c2 :: r2 =>
                      match cont_bits c2 with
                      | None => None
                      | Some x2 =>
                          if (224 <=? b0) && (b0 <? 240) then
                            let v := (b0 - 224) * 4096 + x1 * 64 + x2 in
                            if (2048 <=? v) && negb ((55296 <=? v) && (v <=? 57343))
                            then option_map (cons v) (utf8_decode r2) else None
                          else
                            match r2 with
                            | [] => None
                            | c3 :: r3 =>
                                match cont_bits c3 with
                                | None => None
                                | Some x3 =>
                                    let v := (b0 - 240) * 262144 + x1 * 4096 + x2 * 64 + x3 in
                                    if (240 <=? b0) && (b0 <? 245) && (65536 <=? v) && (v <=? 1114111)
                                    then option_map (cons v) (utf8_decode r3) else None
                                end
                            end
                      end
                  end
            end
        end
  end.

(** Reading a line in text mode: UnicodeDecodeError on invalid UTF-8. *)
Definition decode_line (raw : list ascii) : result (list Z) :=
  match utf8_decode raw with
  | Some cs => Ok cs
  | None => Err UnicodeDecodeError
  end.

(** [Py_UNICODE_ISSPACE], the whitespace of [str.strip()] and
    [str.split()]: general category Zs or bidirectional class WS, B or S. *)
Definition is_space (c : Z) : bool :=
  (9 <=? c) && (c <=? 13) || (28 <=? c) && (c <=? 32) || (c =? 133) || (c =? 160) ||
  (c =? 5760) || (8192 <=? c) && (c <=? 8202) || (c =? 8232) || (c =? 8233) ||
  (c =? 8239) || (c =? 8287) || (c =? 12288).

Fixpoint lstrip (cs : list Z) : list Z :=
  match cs with
  | c :: cs' => if is_space c then lstrip cs' else cs
  | [] => []
  end.

(** [s.strip()] *)
Definition py_strip (cs : list Z) : list Z := rev (lstrip (rev (lstrip cs))).

Fixpoint split_go (cs cur : list Z) : list (list Z) :=
  match cs with
  | [] => match cur with [] => [] | _ => [rev cur] end
  | c :: cs' =>
      if is_space c then
        match cur with
        | [] => split_go cs' []
        | _ => rev cur :: split_go cs' []
        end
      else split_go cs' (c :: cur)
  end.

(** [s.split()]: runs of whitespace separate, no empty tokens. *)
Definition py_split (cs : list Z) : list (list Z) := split_go cs [].

(** The code points of value 0 of the runs of ten decimal digits
    (general category Nd) of Unicode 14.0, whose digits [int()] accepts. *)
Definition decimal_zeros : list Z :=
  [48; 1632; 1776; 1984; 2406; 2534; 2662; 2790; 2918; 3046; 3174; 3302;
   3430; 3558; 3664; 3792; 3872; 4160; 4240; 6112; 6160; 6470; 6608; 6784;
   6800; 6992; 7088; 7232; 7248; 42528; 43216; 43264; 43472; 43504; 43600;
   44016; 65296; 66720; 68912; 69734; 69872; 69942; 70096; 70384; 70736;
   70864; 71248; 71360; 71472; 71904; 72016; 72784; 73040; 73120; 92768;
   92864; 93008; 120782; 120792; 120802; 120812; 120822; 123200; 123632;
   125264; 130032].

(** [Py_UNICODE_TODECIMAL] *)
Definition digit_value (c : Z) : option Z :=
  match find (fun z => (z <=? c) && (c <? z + 10)) decimal_zeros with
  | Some z => Some (c - z)
  | None => None
  end.

(** Decimal digits with single underscores between them, as [int()]
    accepts them. *)
Fixpoint digits_go (cs : list Z) (acc : Z) (prev_us : bool) : option Z :=
  match cs with
  | [] => if prev_us then None else Some acc
  | c :: cs' =>
      match digit_value c with
      | Some d => digits_go cs' (10 * acc + d) false
      | None =>
          if c =? 95 (* _ *) then
            (if prev_us then None else digits_go cs' acc true)
          else None
      end
  end.

Definition parse_unsigned (cs : list Z) : option Z :=
  match cs with
  | c :: _ => match digit_value c with Some _ => digits_go cs 0 false | None => None end
  | [] => None
  end.

(** [int(token)] for a token without surrounding whitespace. *)
Definition py_int (tok : list Z) : result Z :=
  let r :=
    match tok with
    | c :: rest =>
        if c =? 45 (* - *) then option_map Z.opp (parse_unsigned rest)
        else if c =? 43 (* + *) then parse_unsigned rest
        else parse_unsigned tok
    | [] => None
    end in
  match r with Some n => Ok n | None => Err ValueError end.

(** A [frozenset] of ints: the canonical list of the elements of the
    set, so two frozensets are equal exactly when their lists are. *)
Definition frozenset (l : list Z) : list Z := elements (list_to_set l : gset Z).

(** [frozenset.__contains__] *)
Definition in_link (x : Z) (link : list Z) : bool := bool_decide (x ∈ link).

(** [random.choice(seq)] with oracle index [i]: IndexError when empty. *)
Definition py_choice {A} (l : list A) (i : nat) : result A :=
  match l !! (i mod length l)%nat with
  | Some x => Ok x
  | None => Err IndexError
  end.

(** [random.random()] with oracle value [r]: [k * 2^-53], [0 <= k < 2^53]. *)
Definition random_value (r : Z) : pyfloat := Fin ((r mod 2 ^ 53) * 2 ^ (units_exp - 53)).

(** Float multiplication of two finite values (for the final estimate). *)
Definition float_mul (x y : pyfloat) : pyfloat :=
  match x, y with
  | Fin a, Fin b =>
      let n := round_pos (Z.abs (a * b)) (2 ^ units_exp) in
      if Z.leb overflow_units n then (if Z.ltb 0 (a * b) then PInf else NInf)
      else Fin (Z.sgn (a * b) * n)
  | _, _ => NaN
  end.

(* ------------------------------------------------------------------ *)
(** ** Estimator state *)

(** Constructor arguments kept on the object. *)
Record config := mk_config {
  file : string;
  M : Z;
  verbose : bool;
  skip_duplicates : bool
}.

(** The mutable attributes of an estimator; [C] is the type of the
    counters ([int] in TRIEST-BASE, [float] in the improved variants).
    [S_edges] is [self.S]. *)
Record state (C : Type) := mk_state {
  S_edges : gset (list Z);
  t : Z;
  tau : C;
  tau_vertices : gmap Z C;
  seen_edges : option (gset (list Z))
}.
Arguments mk_state {C} _ _ _ _ _.
Arguments S_edges {C} _.
Arguments t {C} _.
Arguments tau {C} _.
Arguments tau_vertices {C} _.
Arguments seen_edges {C} _.

Definition set_S {C} (st : state C) (s : gset (list Z)) : state C :=
  mk_state s (t st) (tau st) (tau_vertices st) (seen_edges st).
Definition set_t {C} (st : state C) (n : Z) : state C :=
  mk_state (S_edges st) n (tau st) (tau_vertices st) (seen_edges st).
Definition set_counters {C} (st : state C) (x : C) (m : gmap Z C) : state C :=
  mk_state (S_edges st) (t st) x m (seen_edges st).
Definition set_seen {C} (st : state C) (s : option (gset (list Z))) : state C :=
  mk_state (S_edges st) (t st) (tau st) (tau_vertices st) s.

(** [TriestBase.__init__] (HW3), shared by [TriestImpr]: no check on any
    argument. The counters start at the int 0; in the float model of the
    improved variant that is [Fin 0], since [0 + w] is [float(0) + w]. *)
Definition triest_init {C} (zero : C) (file0 : string) (M0 : Z) (verbose0 skip0 : bool)
    : result (config * state C) :=
  Ok (mk_config file0 M0 verbose0 skip0,
      mk_state ∅ 0 zero ∅ (if skip0 then Some ∅ else None)).

Definition TriestBase_new := triest_init (C := Z) 0.
Definition TriestImpr_new := triest_init (C := pyfloat) (Fin 0).

(** [Triest.__init__] (Asiignment3): no [skip_duplicates], no seen set. *)
Definition TriestImproved_new (file0 : string) (M0 : Z) (verbose0 : bool)
    : result (config * state pyfloat) :=
  Ok (mk_config file0 M0 verbose0 false, mk_state ∅ 0 (Fin 0) ∅ None).

(** The set comprehension
    [{node for link in self.S if u in link for node in link if node != u}]. *)
Definition neighbours (S : gset (list Z)) (u : Z) : gset Z :=
  list_to_set
    (concat (map (fun link => if in_link u link then filter (fun node => node <> u) link else [])
                 (elements S))).

(** [u, v = tuple(edge)]: ValueError unless the frozenset has two elements. *)
Definition unpack2 (e : list Z) : result (Z * Z) :=
  match e with
  | [u; v] => Ok (u, v)
  | _ => Err ValueError
  end.

(** [_get_edge] (HW3). *)
Definition _get_edge (line : list Z) : result (list Z) :=
  match py_split (py_strip line) with
  | p0 :: p1 :: _ => let* a := py_int p0 in let* b := py_int p1 in Ok (frozenset [a; b])
  | _ => Ok []
  end.

(** Python's [line.startswith('#')]. *)
Definition starts_with_hash (cs : list Z) : bool :=
  match cs with c :: _ => c =? 35 (* # *) | [] => false end.

(** The filtering prefix of the loop body of [run] (HW3, both classes):
    [Ok None] means [continue] before any effect, [Ok (Some edge)] an
    edge of two distinct vertices. *)
Definition line_edge (raw : string) : result (option (list Z)) :=
  let* text := decode_line (list_ascii_of_string raw) in
  let line := py_strip text in
  match line with
  | [] => Ok None
  | _ =>
      if starts_with_hash line then Ok None
      else
        let* edge := _get_edge line in
        if negb (length edge =? 2)%nat then Ok None
        else
          let* '(u, v) := unpack2 edge in
          if Z.eqb u v then Ok None else Ok (Some edge)
  end.

(** Cross-check of the text model against CPython 3.11: a no-break space
    (bytes C2 A0) separates tokens, [int('\u0661\u0662') == 12],
    [int('\uff11_\uff10') == 10], and a byte-order mark is no digit. *)
Example text_model_checks :
  line_edge (String "1"%char (String (ascii_of_nat 194) (String (ascii_of_nat 160) "2"%string)))
    = Ok (Some (frozenset [1; 2])) ∧
  py_int [1633; 1634] = Ok 12 ∧ py_int [65297; 95; 65296] = Ok 10 ∧
  py_int [65279; 49] = Err ValueError.
Proof. vm_compute. repeat split. Qed.

(** The deduplication step of [run]: [Ok None] is a skipped duplicate
    ([skipped_count += 1; continue]); otherwise the edge is recorded as
    seen. [edge in None] would raise TypeError. *)
Definition dedup {C} (cfg : config) (st : state C) (edge : list Z) : result (option (state C)) :=
  if skip_duplicates cfg then
    match seen_edges st with
    | Some seen =>
        if bool_decide (edge ∈ seen) then Ok None
        else Ok (Some (set_seen st (Some ({[edge]} ∪ seen))))
    | None => Err TypeError
    end
  else Ok (Some st).

(** The stream loop [for line in f: ...], threading the state. *)
Fixpoint run_lines {St} (step : St -> string -> result St) (st : St) (lines : list string)
    : result St :=
  match lines with
  | [] => Ok st
  | l :: ls => let* st' := step st l in run_lines step st' ls
  end.

(* ------------------------------------------------------------------ *)
(** ** TRIEST-BASE (HW3 [TriestBase]) *)

Module Base.

(** [defaultdict(int)] read. *)
Definition dd_get (m : gmap Z Z) (k : Z) : Z := default 0 (m !! k).
(** [m[k] += d] on a [defaultdict(int)]. *)
Definition dd_add (m : gmap Z Z) (k d : Z) : gmap Z Z := <[k := dd_get m k + d]> m.
(** [if m[k] == 0: del m[k]] *)
Definition del_if_zero (m : gmap Z Z) (k : Z) : gmap Z Z :=
  if Z.eqb (dd_get m k) 0 then delete k m else m.

(** One iteration of [for c in shared_neighborhood] in [_update_counters]. *)
Definition update_one (increment : bool) (u v : Z) (st : state Z) (c : Z) : state Z :=
  if increment then
    set_counters st (tau st + 1)
      (dd_add (dd_add (dd_add (tau_vertices st) u 1) v 1) c 1)
  else
    let m := dd_add (dd_add (dd_add (tau_vertices st) u (-1)) v (-1)) c (-1) in
    set_counters st (tau st - 1) (del_if_zero (del_if_zero (del_if_zero m u) v) c).

Definition shared_neighborhood (S : gset (list Z)) (u v : Z) : gset Z :=
  neighbours S u ∩ neighbours S v.

(** [TriestBase._update_counters] *)
Definition _update_counters (edge : list Z) (increment : bool) (st : state Z) : result (state Z) :=
  let* '(u, v) := unpack2 edge in
  Ok (foldl (update_one increment u v) st
            (elements (shared_neighborhood (S_edges st) u v))).

(** [TriestBase._sample_edge] with the oracle values [(r, i)] for
    [random.random()] and [random.choice]; returns the decision and the
    state after the eviction, if any. *)
Definition _sample_edge (cfg : config) (ri : Z * nat) (st : state Z) : result (bool * state Z) :=
  if Z.leb (t st) (M cfg) then Ok (true, st)
  else
    let* p := py_truediv (M cfg) (t st) in
    if float_ltb (random_value ri.1) p then
      let* edge_to_remove := py_choice (elements (S_edges st)) ri.2 in
      let st1 := set_S st (S_edges st ∖ {[edge_to_remove]}) in
      let* st2 := _update_counters edge_to_remove false st1 in
      Ok (true, st2)
    else Ok (false, st).

(** [xi] : TriestBase.xi on the current state. *)
Definition xi (cfg : config) (st : state Z) : result pyfloat := xi_base (M cfg) (t st).

(** Body of [for line in f:] in [TriestBase.run], after [line_edge] and
    deduplication: [self.t += 1], the periodic progress report (whose
    [self.xi() * self.tau] may raise), then sampling and counting. *)
Definition process_edge (cfg : config) (rnd : Z -> Z * nat) (st : state Z) (edge : list Z)
    : result (state Z) :=
  let st := set_t st (t st + 1) in
  let* current_estimate := (if verbose cfg && Z.eqb (t st mod 10000) 0
       then let* x := xi cfg st in let* y := py_float_of_int (tau st) in Ok (float_mul x y)
       else Ok (Fin 0)) in
  let* decision := _sample_edge cfg (rnd (t st)) st in
  let '(admitted, st) := decision in
  if admitted then _update_counters edge true (set_S st ({[edge]} ∪ S_edges st))
  else Ok st.

(** One line of the loop in [TriestBase.run]; the pair carries the local
    [skipped_count]. *)
Definition run_line (cfg : config) (rnd : Z -> Z * nat) (sc : state Z * Z) (raw : string)
    : result (state Z * Z) :=
  let '(st, skipped) := sc in
  let* oe := line_edge raw in
  match oe with
  | None => Ok (st, skipped)
  | Some edge =>
      let* od := dedup cfg st edge in
      match od with
      | None => Ok (st, skipped + 1)
      | Some st => let* st' := process_edge cfg rnd st edge in Ok (st', skipped)
      end
  end.

(** [TriestBase.run]: the loop, then [final_estimate = self.xi() * self.tau]. *)
Definition run (cfg : config) (rnd : Z -> Z * nat) (st : state Z) (lines : list string)
    : result (state Z * Z * pyfloat) :=
  let* '(st', skipped) := run_lines (run_line cfg rnd) (st, 0) lines in
  let* x := xi cfg st' in
  let* y := py_float_of_int (tau st') in
  Ok (st', skipped, float_mul x y).

(** [TriestBase.get_local_estimate(vertex)]:
    [self.xi() * self.tau_vertices.get(vertex, 0)], a float times an int. *)
Definition get_local_estimate (cfg : config) (st : state Z) (vertex : Z) : result pyfloat :=
  let* x := xi cfg st in
  let* y := py_float_of_int (dd_get (tau_vertices st) vertex) in
  Ok (float_mul x y).

End Base.

(* ------------------------------------------------------------------ *)
(** ** TRIEST-IMPR (HW3 [TriestImpr]) *)

Module Impr.

(** [defaultdict(int)] read; the int 0 adds like [0.0]. *)
Definition dd_get (m : gmap Z pyfloat) (k : Z) : pyfloat := default (Fin 0) (m !! k).
(** [m[k] += w] *)
Definition dd_add (m : gmap Z pyfloat) (k : Z) (w : pyfloat) : gmap Z pyfloat :=
  <[k := float_add (dd_get m k) w]> m.

(** One iteration of [for c in shared_neighborhood]. *)
Definition update_one (weight : pyfloat) (u v : Z) (st : state pyfloat) (c : Z) : state pyfloat :=
  set_counters st (float_add (tau st) weight)
    (dd_add (dd_add (dd_add (tau_vertices st) u weight) v weight) c weight).

(** [TriestImpr.xi] on the current state. *)
Definition xi (cfg : config) (st : state pyfloat) : result pyfloat := xi_impr (M cfg) (t st).

(** [TriestImpr._update_counters]: [weight = self.xi() if increment else 0]
    is computed before the loop. *)
Definition _update_counters (cfg : config) (edge : list Z) (increment : bool) (st : state pyfloat)
    : result (state pyfloat) :=
  let* '(u, v) := unpack2 edge in
  let shared := Base.shared_neighborhood (S_edges st) u v in
  let* weight := (if increment then xi cfg st else Ok (Fin 0)) in
  Ok (foldl (update_one weight u v) st (elements shared)).

(** [TriestImpr._sample_edge]: the eviction only removes the edge. *)
Definition _sample_edge (cfg : config) (ri : Z * nat) (st : state pyfloat)
    : result (bool * state pyfloat) :=
  if Z.leb (t st) (M cfg) then Ok (true, st)
  else
    let* p := py_truediv (M cfg) (t st) in
    if float_ltb (random_value ri.1) p then
      let* edge_to_remove := py_choice (elements (S_edges st)) ri.2 in
      Ok (true, set_S st (S_edges st ∖ {[edge_to_remove]}))
    else Ok (false, st).

(** Body of the loop of [TriestImpr.run] after filtering and
    deduplication: [self.t += 1], counters updated unconditionally, then
    the reservoir decision. (The progress report only prints [self.tau].) *)
Definition process_edge (cfg : config) (rnd : Z -> Z * nat) (st : state pyfloat) (edge : list Z)
    : result (state pyfloat) :=
  let st := set_t st (t st + 1) in
  let* st := _update_counters cfg edge true st in
  let* decision := _sample_edge cfg (rnd (t st)) st in
  let '(admitted, st) := decision in
  if admitted then Ok (set_S st ({[edge]} ∪ S_edges st)) else Ok st.

Definition run_line (cfg : config) (rnd : Z -> Z * nat) (sc : state pyfloat * Z) (raw : string)
    : result (state pyfloat * Z) :=
  let '(st, skipped) := sc in
  let* oe := line_edge raw in
  match oe with
  | None => Ok (st, skipped)
  | Some edge =>
      let* od := dedup cfg st edge in
      match od with
      | None => Ok (st, skipped + 1)
      | Some st => let* st' := process_edge cfg rnd st edge in Ok (st', skipped)
      end
  end.

(** [TriestImpr.run]: the estimate is [self.tau] itself. *)
Definition run (cfg : config) (rnd : Z -> Z * nat) (st : state pyfloat) (lines : list string)
    : result (state pyfloat * Z * pyfloat) :=
  let* '(st', skipped) := run_lines (run_line cfg rnd) (st, 0) lines in
  Ok (st', skipped, tau st').

End Impr.

(* ------------------------------------------------------------------ *)
(** ** [TriestImproved] of Asiignment3 *)

Module A3.

(** [[f(x) for x in xs]] where [f] may raise: the first exception wins. *)
Fixpoint map_result {A B} (f : A -> result B) (xs : list A) : result (list B) :=
  match xs with
  | [] => Ok []
  | x :: xs' => let* y := f x in let* ys := map_result f xs' in Ok (y :: ys)
  end.

(** [_get_edge] (Asiignment3): every token converted, no filtering.
    [raw] is the line as the file holds it; the text-mode file object
    decodes it before [_get_edge] sees it, which is done first here. *)
Definition _get_edge (raw : list ascii) : result (list Z) :=
  let* line := decode_line raw in
  let* vs := map_result py_int (py_split line) in Ok (frozenset vs).

(** [functools.reduce(lambda a, b: a & b, sets)]: TypeError when empty. *)
Definition reduce_inter (sets : list (gset Z)) : result (gset Z) :=
  match sets with
  | [] => Err TypeError
  | s0 :: rest => Ok (foldl (fun a b => a ∩ b) s0 rest)
  end.

(** [self.eta] on the current state. *)
Definition eta (cfg : config) (st : state pyfloat) : result pyfloat := eta_a3 (M cfg) (t st).

(** One iteration of [for vertex in common_neighbourhood]: [self.eta] is
    read at each use; it is the same value each time, so it is computed
    once per iteration. *)
Definition update_one (cfg : config) (edge : list Z) (st : state pyfloat) (vertex : Z)
    : result (state pyfloat) :=
  let* w := eta cfg st in
  let m := Impr.dd_add (tau_vertices st) vertex w in
  Ok (set_counters st (float_add (tau st) w) (foldl (fun m node => Impr.dd_add m node w) m edge)).

Fixpoint fold_result {A B} (f : A -> B -> result A) (a : A) (xs : list B) : result A :=
  match xs with
  | [] => Ok a
  | x :: xs' => let* a' := f a x in fold_result f a' xs'
  end.

(** [TriestImproved._update_counters] *)
Definition _update_counters (cfg : config) (edge : list Z) (st : state pyfloat)
    : result (state pyfloat) :=
  let* common := reduce_inter (map (neighbours (S_edges st)) edge) in
  fold_result (update_one cfg edge) st (elements common).

(** [scipy.stats.bernoulli.rvs(p=p)] with oracle outcome [b]: ValueError
    outside [0, 1]; the outcome is forced when [p] is 0 or 1. *)
Definition bernoulli_rvs (p : pyfloat) (b : bool) : result bool :=
  if negb (float_leb (Fin 0) p && float_leb p one) then Err ValueError
  else if float_leb p (Fin 0) then Ok false
  else if float_leb one p then Ok true
  else Ok b.

(** [TriestImproved._sample_edge(t)] with oracle [(b, i)]. *)
Definition _sample_edge (cfg : config) (bi : bool * nat) (st : state pyfloat)
    : result (bool * state pyfloat) :=
  if Z.leb (t st) (M cfg) then Ok (true, st)
  else
    let* p := py_truediv (M cfg) (t st) in
    let* coin := bernoulli_rvs p bi.1 in
    if coin then
      let* edge_to_remove := py_choice (elements (S_edges st)) bi.2 in
      Ok (true, set_S st (S_edges st ∖ {[edge_to_remove]}))
    else Ok (false, st).

(** Loop body of [TriestImproved.run]: no filtering of any kind. *)
Definition run_line (cfg : config) (rnd : Z -> bool * nat) (st : state pyfloat) (line : string)
    : result (state pyfloat) :=
  let* edge := _get_edge (list_ascii_of_string line) in
  let st := set_t st (t st + 1) in
  let* st := _update_counters cfg edge st in
  let* decision := _sample_edge cfg (rnd (t st)) st in
  let '(admitted, st) := decision in
  if admitted then Ok (set_S st ({[edge]} ∪ S_edges st)) else Ok st.

(** [TriestImproved.run]: returns [self.tau]. *)
Definition run (cfg : config) (rnd : Z -> bool * nat) (st : state pyfloat) (lines : list string)
    : result (state pyfloat * pyfloat) :=
  let* st' := run_lines (run_line cfg rnd) st lines in
  Ok (st', tau st').

End A3.

(* ------------------------------------------------------------------ *)
(** ** [Triest] and [TriestBase] of Asiignment3 *)

Module A3Base.

(** [Triest.__init__] (Asiignment3) for [TriestBase]: the counters are
    ints. *)
Definition TriestBase_new (file0 : string) (M0 : Z) (verbose0 : bool) : result (config * state Z) :=
  Ok (mk_config file0 M0 verbose0 false, mk_state ∅ 0 0 ∅ None).

(** The property [Triest.xi]: no guard on [t <= M]. *)
Definition xi (cfg : config) (st : state Z) : result pyfloat :=
  let* q := py_truediv (t st * (t st - 1) * (t st - 2)) (M cfg * (M cfg - 1) * (M cfg - 2)) in
  Ok (py_max one q).

(** [self.tau_vertices[k] = operator(self.tau_vertices[k], 1)] *)
Definition apply_at (operator : Z -> Z -> Z) (m : gmap Z Z) (k : Z) : gmap Z Z :=
  <[k := operator (Base.dd_get m k) 1]> m.

(** One iteration of [for vertex in common_neighbourhood] in
    [Triest._update_counters]. *)
Definition update_one (operator : Z -> Z -> Z) (edge : list Z) (st : state Z) (vertex : Z) : state Z :=
  let m := apply_at operator (tau_vertices st) vertex in
  set_counters st (operator (tau st) 1) (foldl (apply_at operator) m edge).

(** [Triest._update_counters(operator, edge)]: returns early when the edge
    has fewer than two vertices. *)
Definition _update_counters (operator : Z -> Z -> Z) (edge : list Z) (st : state Z) : result (state Z) :=
  let neighbor_sets := map (neighbours (S_edges st)) edge in
  if (length neighbor_sets <? 2)%nat then Ok st
  else
    let* common := A3.reduce_inter neighbor_sets in
    Ok (foldl (update_one operator edge) st (elements common)).

(** [Triest._sample_edge(t)] with oracle [(b, i)] for [bernoulli.rvs] and
    [random.choice]. *)
Definition _sample_edge (cfg : config) (bi : bool * nat) (t0 : Z) (st : state Z)
    : result (bool * state Z) :=
  if Z.leb t0 (M cfg) then Ok (true, st)
  else
    let* p := py_truediv (M cfg) t0 in
    let* coin := A3.bernoulli_rvs p bi.1 in
    if coin then
      let* edge_to_remove := py_choice (elements (S_edges st)) bi.2 in
      let st := set_S st (S_edges st ∖ {[edge_to_remove]}) in
      let* st := _update_counters Z.sub edge_to_remove st in
      Ok (true, st)
    else Ok (false, st).

(** Loop body of [TriestBase.run] (Asiignment3): no filtering; the
    counters are updated before the edge is added; the progress report
    evaluates [self.xi * self.tau]. *)
Definition run_line (cfg : config) (rnd : Z -> bool * nat) (st : state Z) (line : string)
    : result (state Z) :=
  let* edge := A3._get_edge (list_ascii_of_string line) in
  let st := set_t st (t st + 1) in
  let* decision := _sample_edge cfg (rnd (t st)) (t st) st in
  let '(admitted, st) := decision in
  let* st := (if admitted then
                let* st := _update_counters Z.add edge st in
                Ok (set_S st ({[edge]} ∪ S_edges st))
              else Ok st) in
  if verbose cfg && Z.eqb (t st mod 1000) 0 then
    let* x := xi cfg st in
    let* y := py_float_of_int (tau st) in
    Ok st
  else Ok st.

(** [TriestBase.run] (Asiignment3): returns [self.xi * self.tau]. *)
Definition run (cfg : config) (rnd : Z -> bool * nat) (st : state Z) (lines : list string)
    : result (state Z * pyfloat) :=
  let* st' := run_lines (run_line cfg rnd) st lines in
  let* x := xi cfg st' in
  let* y := py_float_of_int (tau st') in
  Ok (st', float_mul x y).

End A3Base.

(* ------------------------------------------------------------------ *)
(** ** The order of operations prescribed by the spec for TRIEST-BASE *)

Module SpecOrder.

(** Modelled from the spec (section 4.4, steps 2 and 3), for comparison
    with [Base._sample_edge]: on eviction, the evicted edge's contribution
    is subtracted against [S] as it is before the edge is removed, and
    only then is the edge removed. *)
Definition spec_sample_edge (cfg : config) (ri : Z * nat) (st : state Z) : result (bool * state Z) :=
  if Z.leb (t st) (M cfg) then Ok (true, st)
  else
    let* p := py_truediv (M cfg) (t st) in
    if float_ltb (random_value ri.1) p then
      let* edge_to_remove := py_choice (elements (S_edges st)) ri.2 in
      let* st1 := Base._update_counters edge_to_remove false st in
      Ok (true, set_S st1 (S_edges st1 ∖ {[edge_to_remove]}))
    else Ok (false, st).

(** Modelled from the spec (section 4.4, step 3), for comparison with
    [Base.process_edge]: an admitted edge's contribution is added against
    [S] before the edge is inserted, then the edge is inserted. *)
Definition spec_process_edge (cfg : config) (rnd : Z -> Z * nat) (st : state Z) (edge : list Z)
    : result (state Z) :=
  let st := set_t st (t st + 1) in
  let* current_estimate := (if verbose cfg && Z.eqb (t st mod 10000) 0
       then let* x := Base.xi cfg st in let* y := py_float_of_int (tau st) in Ok (float_mul x y)
       else Ok (Fin 0)) in
  let* decision := spec_sample_edge cfg (rnd (t st)) st in
  let '(admitted, st) := decision in
  if admitted then
    let* st1 := Base._update_counters edge true st in
    Ok (set_S st1 ({[edge]} ∪ S_edges st1))
  else Ok st.

Definition spec_run_line (cfg : config) (rnd : Z -> Z * nat) (sc : state Z * Z) (raw : string)
    : result (state Z * Z) :=
  let '(st, skipped) := sc in
  let* oe := line_edge raw in
  match oe with
  | None => Ok (st, skipped)
  | Some edge =>
      let* od := dedup cfg st edge in
      match od with
      | None => Ok (st, skipped + 1)
      | Some st => let* st' := spec_process_edge cfg rnd st edge in Ok (st', skipped)
      end
  end.

End SpecOrder.

(* ================================================================== *)
(** * Properties *)

(** ** Neighbourhoods *)

Lemma neighbours_spec (S : gset (list Z)) (u w : Z) :
  w ∈ neighbours S u ↔ ∃ link, link ∈ S ∧ u ∈ link ∧ w ∈ link ∧ w ≠ u.
Proof.
  unfold neighbours. rewrite elem_of_list_to_set, list_elem_of_In, in_concat.
  split.
  - intros [l [Hl Hw]]. apply in_map_iff in Hl as [link [<- Hlink]].
    unfold in_link in Hw. case_bool_decide as Hu; [|destruct Hw].
    apply list_elem_of_In, list_elem_of_filter in Hw as [Hne Hw].
    exists link. rewrite <- elem_of_elements, list_elem_of_In. done.
  - intros (link & Hlink & Hu & Hw & Hne).
    exists (filter (fun node => node <> u) link). split.
    + apply in_map_iff. exists link. split.
      * unfold in_link. by rewrite bool_decide_true.
      * by apply list_elem_of_In, elem_of_elements.
    + apply list_elem_of_In, list_elem_of_filter. done.
Qed.

Lemma shared_spec (S : gset (list Z)) (u v w : Z) :
  w ∈ Base.shared_neighborhood S u v ↔
  (∃ l1, l1 ∈ S ∧ u ∈ l1 ∧ w ∈ l1 ∧ w ≠ u) ∧ (∃ l2, l2 ∈ S ∧ v ∈ l2 ∧ w ∈ l2 ∧ w ≠ v).
Proof. unfold Base.shared_neighborhood. rewrite elem_of_intersection, !neighbours_spec. done. Qed.

(** The edge [[u; v]] itself never contributes a shared neighbour. *)
Lemma shared_without_self (S : gset (list Z)) (u v : Z) :
  Base.shared_neighborhood S u v = Base.shared_neighborhood (S ∖ {[[u; v]]}) u v.
Proof.
  apply set_eq. intros w. rewrite !shared_spec. split.
  - intros [(l1 & H1 & Hu1 & Hw1 & Hn1) (l2 & H2 & Hv2 & Hw2 & Hn2)].
    split.
    + exists l1. repeat split; try done. apply elem_of_difference. split; [done|].
      rewrite elem_of_singleton. intros ->. apply list_elem_of_In in Hw1.
      destruct Hw1 as [->|[->|[]]]; [done|].
      done.
    + exists l2. repeat split; try done. apply elem_of_difference. split; [done|].
      rewrite elem_of_singleton. intros ->. apply list_elem_of_In in Hw2.
      destruct Hw2 as [->|[->|[]]]; [|done].
      done.
  - intros [(l1 & H1 & Hu1 & Hw1 & Hn1) (l2 & H2 & Hv2 & Hw2 & Hn2)].
    apply elem_of_difference in H1 as [H1 _]. apply elem_of_difference in H2 as [H2 _].
    split; eauto 10.
Qed.

Lemma shared_with_self (S : gset (list Z)) (u v : Z) :
  Base.shared_neighborhood S u v = Base.shared_neighborhood ({[[u; v]]} ∪ S) u v.
Proof.
  rewrite (shared_without_self S), (shared_without_self ({[[u; v]]} ∪ S)).
  f_equal. set_solver.
Qed.

(** The counter updates touch only [tau] and [tau_vertices]. *)
Lemma base_foldl_set_S (l : list Z) (inc : bool) (u v : Z) (st : state Z) (S' : gset (list Z)) :
  foldl (Base.update_one inc u v) (set_S st S') l = set_S (foldl (Base.update_one inc u v) st l) S'.
Proof.
  revert st. induction l as [|c l IH]; intros st; simpl; [done|].
  rewrite <- IH. f_equal. unfold Base.update_one. by destruct inc.
Qed.

Definition rmap {A B} (f : A -> B) (r : result A) : result B :=
  match r with Ok a => Ok (f a) | Err e => Err e end.

(** [_update_counters] reads [S] only through the shared neighbourhood. *)
Lemma base_update_counters_set_S (e : list Z) (inc : bool) (st : state Z) (S' : gset (list Z)) :
  (∀ u v, e = [u; v] → Base.shared_neighborhood S' u v = Base.shared_neighborhood (S_edges st) u v) →
  Base._update_counters e inc (set_S st S') = rmap (fun r => set_S r S') (Base._update_counters e inc st).
Proof.
  intros Hsh. unfold Base._update_counters, unpack2.
  destruct e as [|u [|v [|]]]; try done. simpl.
  rewrite (Hsh u v eq_refl). apply f_equal, base_foldl_set_S.
Qed.

Lemma base_foldl_S (l : list Z) (inc : bool) (u v : Z) (st : state Z) :
  S_edges (foldl (Base.update_one inc u v) st l) = S_edges st.
Proof.
  revert st. induction l as [|c l IH]; intros st; simpl; [done|].
  rewrite IH. unfold Base.update_one. by destruct inc.
Qed.

Lemma base_update_counters_S (e : list Z) (inc : bool) (st r : state Z) :
  Base._update_counters e inc st = Ok r → S_edges r = S_edges st.
Proof.
  unfold Base._update_counters, unpack2. destruct e as [|u [|v [|]]]; try done.
  simpl. intros [= <-]. apply base_foldl_S.
Qed.

Lemma set_S_S {C} (st : state C) (X : gset (list Z)) : S_edges (set_S st X) = X.
Proof. done. Qed.

Lemma set_S_set_S {C} (st : state C) (X Y : gset (list Z)) : set_S (set_S st X) Y = set_S st Y.
Proof. done. Qed.

Lemma set_S_id {C} (st : state C) : set_S st (S_edges st) = st.
Proof. by destruct st. Qed.

Lemma base_sample_edge_spec_order (cfg : config) (ri : Z * nat) (st : state Z) :
  Base._sample_edge cfg ri st = SpecOrder.spec_sample_edge cfg ri st.
Proof.
  unfold Base._sample_edge, SpecOrder.spec_sample_edge.
  destruct (Z.leb (t st) (M cfg)); [done|].
  destruct (py_truediv (M cfg) (t st)) as [p|]; cbn [rbind]; [|done].
  destruct (float_ltb (random_value ri.1) p); [|done].
  destruct (py_choice (elements (S_edges st)) ri.2) as [e|]; cbn [rbind]; [|done].
  rewrite base_update_counters_set_S.
  - destruct (Base._update_counters e false st) as [r|] eqn:Hr; cbn [rbind]; [|done].
    by rewrite (base_update_counters_S _ _ _ _ Hr).
  - intros u v ->. simpl. symmetry. apply shared_without_self.
Qed.

Lemma base_process_edge_spec_order (cfg : config) (rnd : Z -> Z * nat) (st : state Z) (edge : list Z) :
  Base.process_edge cfg rnd st edge = SpecOrder.spec_process_edge cfg rnd st edge.
Proof.
  unfold Base.process_edge, SpecOrder.spec_process_edge.
  destruct (if verbose cfg && _ then _ else _) as [x|]; cbn [rbind]; [|done].
  rewrite base_sample_edge_spec_order.
  destruct (SpecOrder.spec_sample_edge _ _ _) as [[[] st1]|]; cbn [rbind]; [|done|done].
  rewrite base_update_counters_set_S.
  - destruct (Base._update_counters edge true st1) as [r|] eqn:Hr; cbn [rbind]; [|done].
    by rewrite (base_update_counters_S _ _ _ _ Hr).
  - intros u v ->. simpl. symmetry. apply shared_with_self.
Qed.

Lemma impr_foldl_set_S (l : list Z) (w : pyfloat) (u v : Z) (st : state pyfloat) (S' : gset (list Z)) :
  foldl (Impr.update_one w u v) (set_S st S') l = set_S (foldl (Impr.update_one w u v) st l) S'.
Proof.
  revert st. induction l as [|c l IH]; intros st; simpl; [done|].
  by rewrite <- IH.
Qed.

Lemma impr_foldl_S (l : list Z) (w : pyfloat) (u v : Z) (st : state pyfloat) :
  S_edges (foldl (Impr.update_one w u v) st l) = S_edges st.
Proof.
  revert st. induction l as [|c l IH]; intros st; simpl; [done|]. by rewrite IH.
Qed.

Lemma impr_update_counters_set_S (cfg : config) (e : list Z) (inc : bool) (st : state pyfloat)
    (S' : gset (list Z)) :
  (∀ u v, e = [u; v] → Base.shared_neighborhood S' u v = Base.shared_neighborhood (S_edges st) u v) →
  Impr._update_counters cfg e inc (set_S st S') =
    rmap (fun r => set_S r S') (Impr._update_counters cfg e inc st).
Proof.
  intros Hsh. unfold Impr._update_counters, unpack2.
  destruct e as [|u [|v [|]]]; try done. cbn [rbind].
  change (S_edges (set_S st S')) with S'.
  rewrite (Hsh u v eq_refl). unfold Impr.xi. change (t (set_S st S')) with (t st).
  destruct (if inc then xi_impr (M cfg) (t st) else Ok (Fin 0)) as [w|]; cbn [rbind rmap]; [|done].
  by rewrite impr_foldl_set_S.
Qed.

Lemma base_run_line_spec_order (cfg : config) (rnd : Z -> Z * nat) (sc : state Z * Z) (raw : string) :
  Base.run_line cfg rnd sc raw = SpecOrder.spec_run_line cfg rnd sc raw.
Proof.
  destruct sc as [st skipped]. unfold Base.run_line, SpecOrder.spec_run_line.
  destruct (line_edge raw) as [[edge|]|]; cbn [rbind]; [|done|done].
  destruct (dedup cfg st edge) as [[st'|]|]; cbn [rbind]; [|done|done].
  by rewrite base_process_edge_spec_order.
Qed.

Lemma run_lines_ext {St} (f g : St -> string -> result St) (st : St) (lines : list string) :
  (∀ s l, f s l = g s l) → run_lines f st lines = run_lines g st lines.
Proof.
  intros Hfg. revert st. induction lines as [|l ls IH]; intros st; simpl; [done|].
  rewrite Hfg. destruct (g st l); simpl; [apply IH|done].
Qed.

(** ** Frames: what each step leaves unchanged *)

Lemma base_foldl_frame (l : list Z) (inc : bool) (u v : Z) (st : state Z) :
  let r := foldl (Base.update_one inc u v) st l in
  S_edges r = S_edges st ∧ t r = t st ∧ seen_edges r = seen_edges st.
Proof.
  revert st. induction l as [|c l IH]; intros st; simpl; [done|].
  destruct (IH (Base.update_one inc u v st c)) as (-> & -> & ->).
  unfold Base.update_one. by destruct inc.
Qed.

Lemma base_update_counters_frame (e : list Z) (inc : bool) (st r : state Z) :
  Base._update_counters e inc st = Ok r →
  S_edges r = S_edges st ∧ t r = t st ∧ seen_edges r = seen_edges st.
Proof.
  unfold Base._update_counters, unpack2. destruct e as [|u [|v [|]]]; try done.
  cbn [rbind]. intros [= <-]. apply base_foldl_frame.
Qed.

Lemma impr_foldl_frame (l : list Z) (w : pyfloat) (u v : Z) (st : state pyfloat) :
  let r := foldl (Impr.update_one w u v) st l in
  S_edges r = S_edges st ∧ t r = t st ∧ seen_edges r = seen_edges st.
Proof.
  revert st. induction l as [|c l IH]; intros st; simpl; [done|].
  by destruct (IH (Impr.update_one w u v st c)) as (-> & -> & ->).
Qed.

Lemma impr_update_counters_frame (cfg : config) (e : list Z) (inc : bool) (st r : state pyfloat) :
  Impr._update_counters cfg e inc st = Ok r →
  S_edges r = S_edges st ∧ t r = t st ∧ seen_edges r = seen_edges st.
Proof.
  unfold Impr._update_counters, unpack2. destruct e as [|u [|v [|]]]; try done.
  cbn [rbind]. destruct (if inc then _ else _) as [w|]; cbn [rbind]; [|done].
  intros [= <-]. apply impr_foldl_frame.
Qed.

Lemma py_choice_elem {A} (l : list A) (i : nat) (x : A) : py_choice l i = Ok x → x ∈ l.
Proof.
  unfold py_choice. destruct (l !! _) eqn:H; [|done]. intros [= <-].
  by eapply list_elem_of_lookup_2.
Qed.

(** The reservoir decision leaves [S] alone, or removes one of its edges
    and then admits. *)
Definition sample_shape {C} (Mv : Z) (st : state C) (adm : bool) (st' : state C) : Prop :=
  t st' = t st ∧ seen_edges st' = seen_edges st ∧
  ((S_edges st' = S_edges st ∧ (adm = true → t st ≤ Mv)) ∨
   (adm = true ∧ ∃ e', e' ∈ S_edges st ∧ S_edges st' = S_edges st ∖ {[e']})).

Lemma base_sample_edge_shape (cfg : config) (ri : Z * nat) (st st' : state Z) (adm : bool) :
  Base._sample_edge cfg ri st = Ok (adm, st') → sample_shape (M cfg) st adm st'.
Proof.
  unfold Base._sample_edge. destruct (Z.leb (t st) (M cfg)) eqn:Hle.
  { intros [= <- <-]. apply Z.leb_le in Hle. unfold sample_shape. naive_solver. }
  destruct (py_truediv (M cfg) (t st)) as [p|]; cbn [rbind]; [|done].
  destruct (float_ltb (random_value ri.1) p); [|intros [= <- <-]; unfold sample_shape; naive_solver].
  destruct (py_choice (elements (S_edges st)) ri.2) as [e|] eqn:Hc; cbn [rbind]; [|done].
  destruct (Base._update_counters e false _) as [r|] eqn:Hr; cbn [rbind]; [|done].
  intros [= <- <-]. apply base_update_counters_frame in Hr as (HS & Ht & Hs).
  unfold sample_shape. rewrite HS, Ht, Hs. simpl. split; [done|]. split; [done|].
  right. split; [done|]. exists e. split; [|done].
  apply elem_of_elements. by eapply py_choice_elem.
Qed.

Lemma impr_sample_edge_shape (cfg : config) (ri : Z * nat) (st st' : state pyfloat) (adm : bool) :
  Impr._sample_edge cfg ri st = Ok (adm, st') →
  sample_shape (M cfg) st adm st' ∧ tau st' = tau st ∧ tau_vertices st' = tau_vertices st.
Proof.
  unfold Impr._sample_edge. destruct (Z.leb (t st) (M cfg)) eqn:Hle.
  { intros [= <- <-]. apply Z.leb_le in Hle. unfold sample_shape. naive_solver. }
  destruct (py_truediv (M cfg) (t st)) as [p|]; cbn [rbind]; [|done].
  destruct (float_ltb (random_value ri.1) p); [|intros [= <- <-]; unfold sample_shape; naive_solver].
  destruct (py_choice (elements (S_edges st)) ri.2) as [e|] eqn:Hc; cbn [rbind]; [|done].
  intros [= <- <-]. unfold sample_shape. simpl. split; [|done]. split; [done|]. split; [done|].
  right. split; [done|]. exists e. split; [|done].
  apply elem_of_elements. by eapply py_choice_elem.
Qed.

Lemma dedup_frame {C} (cfg : config) (st st' : state C) (edge : list Z) :
  dedup cfg st edge = Ok (Some st') →
  S_edges st' = S_edges st ∧ t st' = t st ∧ tau st' = tau st ∧ tau_vertices st' = tau_vertices st.
Proof.
  unfold dedup. destruct (skip_duplicates cfg); [|by intros [= <-]].
  destruct (seen_edges st) as [seen|]; [|done].
  case_bool_decide; [done|]. by intros [= <-].
Qed.

(** ** Edges that reach the sampler *)

(** An edge as HW3 admits it: the frozenset of two distinct vertices. *)
Definition proper_edge (e : list Z) : Prop := ∃ a b, a ≠ b ∧ e = frozenset [a; b].

Lemma frozenset_same (a : Z) : frozenset [a; a] = [a].
Proof.
  unfold frozenset. replace (list_to_set [a; a] : gset Z) with ({[a]} : gset Z) by set_solver.
  apply elements_singleton.
Qed.

Lemma get_edge_shape (line : list Z) (e : list Z) :
  _get_edge line = Ok e → e = [] ∨ ∃ a b, e = frozenset [a; b].
Proof.
  unfold _get_edge. destruct (py_split (py_strip line)) as [|p0 [|p1 rest]]; try (intros [= <-]; by left).
  destruct (py_int p0) as [a|]; cbn [rbind]; [|done].
  destruct (py_int p1) as [b|]; cbn [rbind]; [|done].
  intros [= <-]. right. eauto.
Qed.

Lemma line_edge_proper (raw : string) (e : list Z) :
  line_edge raw = Ok (Some e) → proper_edge e.
Proof.
  unfold line_edge. destruct (decode_line _) as [text|]; cbn [rbind]; [|done].
  destruct (py_strip text) as [|c cs]; [done|].
  destruct (starts_with_hash (c :: cs)); [done|].
  destruct (_get_edge (c :: cs)) as [e0|] eqn:Hg; cbn [rbind]; [|done].
  destruct (negb (length e0 =? 2)%nat) eqn:Hlen; [done|].
  destruct (unpack2 e0) as [[u v]|]; cbn [rbind]; [|done].
  destruct (Z.eqb u v); [done|]. intros [= <-].
  apply get_edge_shape in Hg as [->|(a & b & ->)]; [done|].
  exists a, b. split; [|done]. intros <-. rewrite frozenset_same in Hlen. done.
Qed.

Lemma frozenset_ext (a b c d : Z) :
  (∀ x, x ∈ frozenset [a; b] ↔ x ∈ frozenset [c; d]) → frozenset [a; b] = frozenset [c; d].
Proof.
  intros H. unfold frozenset in *. f_equal. apply set_eq. intros x.
  specialize (H x). rewrite !elem_of_elements in H. done.
Qed.

(** ** The reservoir invariant *)

Definition sample_inv {C} (Mv : Z) (st : state C) : Prop :=
  0 ≤ t st ∧ Z.of_nat (size (S_edges st)) ≤ t st ∧ Z.of_nat (size (S_edges st)) ≤ Mv ∧
  ∀ e, e ∈ S_edges st → proper_edge e.

Lemma size_add_le (x : list Z) (X : gset (list Z)) : (size ({[x]} ∪ X) ≤ S (size X))%nat.
Proof.
  rewrite size_union_alt, size_singleton.
  pose proof (subseteq_size (X ∖ {[x]}) X ltac:(set_solver)). lia.
Qed.

Lemma size_remove (x : list Z) (X : gset (list Z)) : x ∈ X → (size (X ∖ {[x]}) = pred (size X))%nat.
Proof.
  intros Hx. rewrite size_difference by set_solver. rewrite size_singleton. lia.
Qed.

Lemma size_pos (x : list Z) (X : gset (list Z)) : x ∈ X → (0 < size X)%nat.
Proof.
  intros Hx. pose proof (subseteq_size {[x]} X ltac:(set_solver)). rewrite size_singleton in H. lia.
Qed.

(** One accepted edge: [t] goes up by one, and the new sample is the
    sample after the decision, with the edge added if admitted. *)
Lemma sample_inv_step {C} (Mv : Z) (st st2 : state C) (adm : bool) (edge : list Z) :
  sample_inv Mv st → proper_edge edge → sample_shape Mv (set_t st (t st + 1)) adm st2 →
  let S' := if adm then {[edge]} ∪ S_edges st2 else S_edges st2 in
  0 ≤ t st + 1 ∧ Z.of_nat (size S') ≤ t st + 1 ∧ Z.of_nat (size S') ≤ Mv ∧
  ∀ e, e ∈ S' → proper_edge e.
Proof.
  intros (Ht & HSt & HSM & Hp) Hedge (Ht2 & _ & Hsh) S'. simpl in Ht2.
  destruct Hsh as [[HS Hle] | [-> (e' & He' & HS)]]; simpl in *.
  - subst S'. destruct adm.
    + specialize (Hle eq_refl). pose proof (size_add_le edge (S_edges st2)).
      rewrite HS in *. split; [lia|]. split; [lia|]. split; [lia|].
      intros e. rewrite elem_of_union, elem_of_singleton. intros [->|]; auto.
    + rewrite HS. split; [lia|]. split; [lia|]. split; [lia|]. done.
  - subst S'. pose proof (size_add_le edge (S_edges st2)).
    rewrite HS in *. rewrite size_remove in H by done. pose proof (size_pos _ _ He').
    split; [lia|]. split; [lia|]. split; [lia|].
    intros e. rewrite elem_of_union, elem_of_singleton, elem_of_difference. intros [->|[? _]]; auto.
Qed.

Lemma base_process_edge_inv (cfg : config) (rnd : Z -> Z * nat) (st r : state Z) (edge : list Z) :
  sample_inv (M cfg) st → proper_edge edge →
  Base.process_edge cfg rnd st edge = Ok r → sample_inv (M cfg) r.
Proof.
  intros Hinv Hedge. unfold Base.process_edge.
  destruct (if verbose cfg && _ then _ else _) as [x|]; cbn [rbind]; [|done].
  destruct (Base._sample_edge cfg _ _) as [[adm st2]|] eqn:Hs; cbn [rbind]; [|done].
  apply base_sample_edge_shape in Hs.
  pose proof (sample_inv_step _ _ _ _ _ Hinv Hedge Hs) as Hst. simpl in Hst.
  destruct Hs as (Ht2 & _ & _). simpl in Ht2.
  destruct adm.
  - intros Hr. apply base_update_counters_frame in Hr as (HS & Htr & _).
    unfold sample_inv. rewrite HS, Htr. simpl. rewrite Ht2. done.
  - intros [= <-]. unfold sample_inv. rewrite Ht2. done.
Qed.

Lemma impr_process_edge_inv (cfg : config) (rnd : Z -> Z * nat) (st r : state pyfloat) (edge : list Z) :
  sample_inv (M cfg) st → proper_edge edge →
  Impr.process_edge cfg rnd st edge = Ok r → sample_inv (M cfg) r.
Proof.
  intros Hinv Hedge. unfold Impr.process_edge.
  destruct (Impr._update_counters cfg edge true _) as [st1|] eqn:Hu; cbn [rbind]; [|done].
  apply impr_update_counters_frame in Hu as (HS1 & Ht1 & Hs1).
  destruct (Impr._sample_edge cfg _ _) as [[adm st2]|] eqn:Hs; cbn [rbind]; [|done].
  apply impr_sample_edge_shape in Hs as [Hs _].
  assert (Hs' : sample_shape (M cfg) (set_t st (t st + 1)) adm st2).
  { destruct Hs as (Ht2 & Hseen & Hsh). rewrite HS1, Ht1, Hs1 in *. split; [done|]. split; [done|].
    exact Hsh. }
  pose proof (sample_inv_step _ _ _ _ _ Hinv Hedge Hs') as Hst. simpl in Hst.
  destruct Hs' as (Ht2 & _ & _). simpl in Ht2.
  destruct adm; intros [= <-]; unfold sample_inv; simpl; rewrite Ht2; done.
Qed.

Lemma base_run_line_inv (cfg : config) (rnd : Z -> Z * nat) (sc sc' : state Z * Z) (raw : string) :
  sample_inv (M cfg) sc.1 → Base.run_line cfg rnd sc raw = Ok sc' → sample_inv (M cfg) sc'.1.
Proof.
  destruct sc as [st k]. simpl. intros Hinv. unfold Base.run_line.
  destruct (line_edge raw) as [[edge|]|] eqn:He; cbn [rbind]; [|by intros [= <-]|done].
  apply line_edge_proper in He.
  destruct (dedup cfg st edge) as [[st1|]|] eqn:Hd; cbn [rbind]; [|by intros [= <-]|done].
  apply dedup_frame in Hd as (HS & Ht & _).
  destruct (Base.process_edge cfg rnd st1 edge) as [r|] eqn:Hp; cbn [rbind]; [|done].
  intros [= <-]. simpl. eapply base_process_edge_inv; [|exact He|exact Hp].
  unfold sample_inv in *. by rewrite HS, Ht.
Qed.

Lemma impr_run_line_inv (cfg : config) (rnd : Z -> Z * nat) (sc sc' : state pyfloat * Z) (raw : string) :
  sample_inv (M cfg) sc.1 → Impr.run_line cfg rnd sc raw = Ok sc' → sample_inv (M cfg) sc'.1.
Proof.
  destruct sc as [st k]. simpl. intros Hinv. unfold Impr.run_line.
  destruct (line_edge raw) as [[edge|]|] eqn:He; cbn [rbind]; [|by intros [= <-]|done].
  apply line_edge_proper in He.
  destruct (dedup cfg st edge) as [[st1|]|] eqn:Hd; cbn [rbind]; [|by intros [= <-]|done].
  apply dedup_frame in Hd as (HS & Ht & _).
  destruct (Impr.process_edge cfg rnd st1 edge) as [r|] eqn:Hp; cbn [rbind]; [|done].
  intros [= <-]. simpl. eapply impr_process_edge_inv; [|exact He|exact Hp].
  unfold sample_inv in *. by rewrite HS, Ht.
Qed.

Lemma run_lines_preserve {St} (P : St -> Prop) (step : St -> string -> result St) (st st' : St)
    (lines : list string) :
  (∀ s s' l, P s → step s l = Ok s' → P s') →
  P st → run_lines step st lines = Ok st' → P st'.
Proof.
  intros Hstep. revert st. induction lines as [|l ls IH]; intros st Hst; simpl.
  - by intros [= <-].
  - destruct (step st l) as [s1|] eqn:H1; cbn [rbind]; [|done].
    apply IH. eapply Hstep; eauto.
Qed.

(** What the spec asks of the sample: at most [M] edges, each the
    frozenset of two distinct vertices, and no unordered pair twice. *)
Definition sample_ok {C} (Mv : Z) (st : state C) : Prop :=
  Z.of_nat (size (S_edges st)) ≤ Mv ∧
  (∀ e, e ∈ S_edges st → proper_edge e) ∧
  (∀ e1 e2, e1 ∈ S_edges st → e2 ∈ S_edges st → (∀ x, x ∈ e1 ↔ x ∈ e2) → e1 = e2).

Lemma sample_inv_ok {C} (Mv : Z) (st : state C) : sample_inv Mv st → sample_ok Mv st.
Proof.
  intros (_ & _ & HM & Hp). split; [done|]. split; [done|].
  intros e1 e2 H1 H2 Hx. destruct (Hp e1 H1) as (a & b & _ & ->).
  destruct (Hp e2 H2) as (c & d & _ & ->). by apply frozenset_ext.
Qed.

Lemma sample_inv_init {C} (Mv : Z) (x : C) (seen : option (gset (list Z))) :
  0 ≤ Mv → sample_inv Mv (mk_state ∅ 0 x ∅ seen).
Proof.
  intros HM. unfold sample_inv. cbn [S_edges t]. rewrite size_empty. split; [lia|]. split; [lia|].
  split; [lia|]. set_solver.
Qed.

(** ** Deduplication *)

Lemma base_process_edge_seen (cfg : config) (rnd : Z -> Z * nat) (st r : state Z) (edge : list Z) :
  Base.process_edge cfg rnd st edge = Ok r → seen_edges r = seen_edges st.
Proof.
  unfold Base.process_edge.
  destruct (if verbose cfg && _ then _ else _) as [x|]; cbn [rbind]; [|done].
  destruct (Base._sample_edge cfg _ _) as [[adm st2]|] eqn:Hs; cbn [rbind]; [|done].
  apply base_sample_edge_shape in Hs as (_ & Hseen & _). simpl in Hseen.
  destruct adm.
  - intros Hr. apply base_update_counters_frame in Hr as (_ & _ & ->). done.
  - by intros [= <-].
Qed.

Lemma impr_process_edge_seen (cfg : config) (rnd : Z -> Z * nat) (st r : state pyfloat) (edge : list Z) :
  Impr.process_edge cfg rnd st edge = Ok r → seen_edges r = seen_edges st.
Proof.
  unfold Impr.process_edge.
  destruct (Impr._update_counters cfg edge true _) as [st1|] eqn:Hu; cbn [rbind]; [|done].
  apply impr_update_counters_frame in Hu as (_ & _ & Hs1).
  destruct (Impr._sample_edge cfg _ _) as [[adm st2]|] eqn:Hs; cbn [rbind]; [|done].
  apply impr_sample_edge_shape in Hs as [(_ & Hseen & _) _].
  destruct adm; intros [= <-]; simpl; rewrite Hseen, Hs1; done.
Qed.

(** The deduplication logic shared by both [run] loops, for any
    [process_edge] that keeps the seen set. *)
Lemma dedup_twice {C} (cfg : config) (process : state C -> list Z -> result (state C))
    (st st1 : state C) (k k1 : Z) (oe : result (option (list Z))) :
  skip_duplicates cfg = true →
  (∀ s e r, process s e = Ok r → seen_edges r = seen_edges s) →
  let line_step := fun (sc : state C * Z) =>
    let '(st, skipped) := sc in
    let* oe := oe in
    match oe with
    | None => Ok (st, skipped)
    | Some edge =>
        let* od := dedup cfg st edge in
        match od with
        | None => Ok (st, skipped + 1)
        | Some st => let* st' := process st edge in Ok (st', skipped)
        end
    end in
  line_step (st, k) = Ok (st1, k1) → ∃ k2, line_step (st1, k1) = Ok (st1, k2).
Proof.
  intros Hskip Hproc line_step. subst line_step. cbn beta iota.
  destruct oe as [[edge|]|]; cbn [rbind]; [|intros [= <- <-]; eauto|done].
  unfold dedup. rewrite Hskip.
  destruct (seen_edges st) as [seen|] eqn:Hseen; [|done].
  case_bool_decide as Hin; cbn [rbind].
  - intros [= <- <-]. rewrite Hseen, bool_decide_true by done. cbn [rbind]. eauto.
  - destruct (process _ edge) as [r|] eqn:Hr; cbn [rbind]; [|done].
    intros [= <- <-]. apply Hproc in Hr. rewrite Hr. simpl.
    rewrite bool_decide_true by set_solver. cbn [rbind]. eauto.
Qed.

(** ** Stripping and malformed lines *)







(** A line filtered out by [line_edge] leaves the loop state as it was;
    an exception in [line_edge] ends the loop with that exception. *)
Lemma base_run_lines_skip (cfg : config) (rnd : Z -> Z * nat) (raw : string) sc rest :
  line_edge raw = Ok None →
  run_lines (Base.run_line cfg rnd) sc (raw :: rest) = run_lines (Base.run_line cfg rnd) sc rest.
Proof. destruct sc as [st k]. intros H. simpl. unfold Base.run_line. rewrite H. done. Qed.

Lemma impr_run_lines_skip (cfg : config) (rnd : Z -> Z * nat) (raw : string) sc rest :
  line_edge raw = Ok None →
  run_lines (Impr.run_line cfg rnd) sc (raw :: rest) = run_lines (Impr.run_line cfg rnd) sc rest.
Proof. destruct sc as [st k]. intros H. simpl. unfold Impr.run_line. rewrite H. done. Qed.



(** ** Counter updates of the improved variants *)

Lemma a3_sample_edge_counters (cfg : config) (bi : bool * nat) (st st' : state pyfloat) (adm : bool) :
  A3._sample_edge cfg bi st = Ok (adm, st') →
  tau st' = tau st ∧ tau_vertices st' = tau_vertices st ∧ t st' = t st.
Proof.
  unfold A3._sample_edge. destruct (Z.leb (t st) (M cfg)); [by intros [= <- <-]|].
  destruct (py_truediv (M cfg) (t st)) as [p|]; cbn [rbind]; [|done].
  destruct (A3.bernoulli_rvs p bi.1) as [[|]|]; cbn [rbind]; [|by intros [= <- <-]|done].
  destruct (py_choice _ _); cbn [rbind]; [|done]. by intros [= <- <-].
Qed.

Lemma a3_fold_t (cfg : config) (edge : list Z) (l : list Z) (st r : state pyfloat) :
  A3.fold_result (A3.update_one cfg edge) st l = Ok r → t r = t st ∧ S_edges r = S_edges st.
Proof.
  revert st. induction l as [|c l IH]; intros st; simpl; [by intros [= <-]|].
  unfold A3.update_one. destruct (A3.eta cfg st); cbn [rbind]; [|done].
  intros H. apply IH in H as [-> ->]. done.
Qed.

Lemma a3_update_counters_t (cfg : config) (edge : list Z) (st r : state pyfloat) :
  A3._update_counters cfg edge st = Ok r → t r = t st ∧ S_edges r = S_edges st.
Proof.
  unfold A3._update_counters. destruct (A3.reduce_inter _); cbn [rbind]; [|done].
  apply a3_fold_t.
Qed.

Lemma impr_process_edge_counts (cfg : config) (rnd : Z -> Z * nat) (st r : state pyfloat) (u v : Z) :
  Impr.process_edge cfg rnd st [u; v] = Ok r →
  ∃ w, xi_impr (M cfg) (t st + 1) = Ok w ∧
    let st1 := foldl (Impr.update_one w u v) (set_t st (t st + 1))
                 (elements (Base.shared_neighborhood (S_edges st) u v)) in
    tau r = tau st1 ∧ tau_vertices r = tau_vertices st1 ∧ t r = t st + 1 ∧
    ∃ adm st2, Impr._sample_edge cfg (rnd (t st + 1)) st1 = Ok (adm, st2) ∧
      r = (if adm then set_S st2 ({[[u; v]]} ∪ S_edges st2) else st2).
Proof.
  unfold Impr.process_edge.
  destruct (Impr._update_counters cfg [u; v] true (set_t st (t st + 1))) as [st1|] eqn:Hu;
    cbn [rbind]; [|done].
  pose proof (impr_update_counters_frame _ _ _ _ _ Hu) as (_ & Ht1 & _).
  unfold Impr._update_counters, Impr.xi in Hu. cbn [unpack2 rbind] in Hu.
  change (t (set_t st (t st + 1))) with (t st + 1) in Hu, Ht1.
  change (S_edges (set_t st (t st + 1))) with (S_edges st) in Hu.
  destruct (xi_impr (M cfg) (t st + 1)) as [w|] eqn:Hw; cbn [rbind] in Hu; [|done].
  injection Hu as <-. rewrite Ht1.
  destruct (Impr._sample_edge cfg _ _) as [[adm st2]|] eqn:Hs; cbn [rbind]; [|done].
  intros Hr. exists w. split; [done|]. cbv zeta.
  pose proof (impr_sample_edge_shape _ _ _ _ _ Hs) as [(Ht2 & _) [Htau Htv]].
  destruct adm; injection Hr as <-; simpl; (split; [done|]); (split; [done|]);
    (split; [congruence|]); eauto.
Qed.

Lemma a3_run_line_counts (cfg : config) (rnd : Z -> bool * nat) (st r : state pyfloat)
    (line : string) (edge : list Z) :
  A3._get_edge (list_ascii_of_string line) = Ok edge →
  A3.run_line cfg rnd st line = Ok r →
  ∃ st1, A3._update_counters cfg edge (set_t st (t st + 1)) = Ok st1 ∧
    tau r = tau st1 ∧ tau_vertices r = tau_vertices st1 ∧ t r = t st + 1 ∧
    ∃ adm st2, A3._sample_edge cfg (rnd (t st + 1)) st1 = Ok (adm, st2) ∧
      r = (if adm then set_S st2 ({[edge]} ∪ S_edges st2) else st2).
Proof.
  intros He. unfold A3.run_line. rewrite He. cbn [rbind].
  destruct (A3._update_counters cfg edge _) as [st1|] eqn:Hu; cbn [rbind]; [|done].
  pose proof (a3_update_counters_t _ _ _ _ Hu) as [Ht1 _]. simpl in Ht1. rewrite Ht1.
  destruct (A3._sample_edge cfg _ _) as [[adm st2]|] eqn:Hs; cbn [rbind]; [|done].
  intros Hr. exists st1. split; [done|].
  pose proof (a3_sample_edge_counters _ _ _ _ _ Hs) as (Htau & Htv & Ht2).
  destruct adm; injection Hr as <-; simpl; (split; [done|]); (split; [done|]);
    (split; [congruence|]); eauto.
Qed.

(** ** Rounding *)

Lemma rne_bounds (p d : Z) : 0 < d → p / d ≤ rne p d ∧ rne p d ≤ p / d + 1.
Proof.
  intros Hd. unfold rne.
  destruct (Z.compare (2 * (p mod d)) d); [destruct (Z.even (p / d))|..]; lia.
Qed.

Lemma rne_mono (p1 p2 d : Z) : 0 < d → p1 ≤ p2 → rne p1 d ≤ rne p2 d.
Proof.
  intros Hd Hp.
  pose proof (Z.div_le_mono p1 p2 d Hd Hp) as Hq.
  destruct (Z.eq_dec (p1 / d) (p2 / d)) as [Heq|Hne].
  - pose proof (Z.div_mod p1 d ltac:(lia)) as E1.
    pose proof (Z.div_mod p2 d ltac:(lia)) as E2.
    pose proof (Z.mod_pos_bound p1 d Hd). pose proof (Z.mod_pos_bound p2 d Hd).
    rewrite Heq in E1.
    assert (Hr : p1 mod d ≤ p2 mod d) by lia.
    unfold rne. rewrite Heq.
    destruct (Z.compare_spec (2 * (p1 mod d)) d), (Z.compare_spec (2 * (p2 mod d)) d);
      destruct (Z.even (p2 / d)); lia.
  - pose proof (rne_bounds p1 d Hd). pose proof (rne_bounds p2 d Hd). lia.
Qed.

Lemma rne_exact (a d : Z) : 0 < d → rne (a * d) d = a.
Proof.
  intros Hd. unfold rne. rewrite Z.div_mul, Z.mod_mul by lia.
  destruct (Z.compare_spec (2 * 0) d); lia.
Qed.

(** Below [2^(53+k)] the rounded quotient has at most 53 bits. *)
Lemma round_pos_upper (p q : Z) : 0 ≤ p → 0 < q →
  let k := Z.max 0 (Z.log2 (p / q) - 52) in round_pos p q ≤ 2 ^ 53 * 2 ^ k.
Proof.
  intros Hp Hq k. unfold round_pos. fold k.
  assert (Hk : 0 ≤ k) by lia.
  assert (H2k : 0 < 2 ^ k) by (apply Z.pow_pos_nonneg; lia).
  assert (Hm : p / q < 2 ^ 53 * 2 ^ k).
  { destruct (Z.le_gt_cases (p / q) 0) as [H0|H0].
    - assert (0 < 2 ^ 53) by lia. nia.
    - pose proof (Z.log2_spec (p / q) H0) as [_ Hs].
      rewrite <- Z.pow_add_r by lia.
      eapply Z.lt_le_trans; [exact Hs|]. apply Z.pow_le_mono_r; lia. }
  assert (Hd : p / (q * 2 ^ k) < 2 ^ 53).
  { rewrite <- Z.div_div by lia. apply Z.div_lt_upper_bound; lia. }
  pose proof (rne_bounds p (q * 2 ^ k) ltac:(nia)) as [_ Hr].
  apply Z.mul_le_mono_nonneg_r; lia.
Qed.

Lemma round_pos_lower (p q : Z) : 0 ≤ p → 0 < q →
  let k := Z.max 0 (Z.log2 (p / q) - 52) in 0 < k → 2 ^ 52 * 2 ^ k ≤ round_pos p q.
Proof.
  intros Hp Hq k Hk. unfold round_pos. fold k.
  assert (H2k : 0 < 2 ^ k) by (apply Z.pow_pos_nonneg; lia).
  assert (Hl : Z.log2 (p / q) = 52 + k) by lia.
  assert (Hpos : 0 < p / q).
  { destruct (Z.le_gt_cases (p / q) 0) as [H0|H0]; [|done].
    rewrite Z.log2_nonpos in Hl by done. lia. }
  pose proof (Z.log2_spec (p / q) Hpos) as [Hs _]. rewrite Hl, Z.pow_add_r in Hs by lia.
  assert (Hd : 2 ^ 52 ≤ p / (q * 2 ^ k)).
  { rewrite <- Z.div_div by lia. apply Z.div_le_lower_bound; lia. }
  pose proof (rne_bounds p (q * 2 ^ k) ltac:(nia)) as [Hr _].
  apply Z.mul_le_mono_nonneg_r; lia.
Qed.

Lemma round_pos_mono (p1 p2 q : Z) : 0 ≤ p1 → p1 ≤ p2 → 0 < q → round_pos p1 q ≤ round_pos p2 q.
Proof.
  intros Hp1 Hp Hq.
  set (k1 := Z.max 0 (Z.log2 (p1 / q) - 52)).
  set (k2 := Z.max 0 (Z.log2 (p2 / q) - 52)).
  assert (Hk : k1 ≤ k2).
  { unfold k1, k2. pose proof (Z.log2_le_mono _ _ (Z.div_le_mono p1 p2 q Hq Hp)). lia. }
  destruct (Z.eq_dec k1 k2) as [Heq|Hne].
  - unfold round_pos. fold k1 k2. rewrite Heq.
    assert (0 < 2 ^ k2) by (apply Z.pow_pos_nonneg; lia).
    apply Z.mul_le_mono_nonneg_r; [lia|]. apply rne_mono; nia.
  - pose proof (round_pos_upper p1 q Hp1 Hq) as Hu. cbv zeta in Hu. fold k1 in Hu.
    pose proof (round_pos_lower p2 q ltac:(lia) Hq) as Hl. cbv zeta in Hl. fold k2 in Hl.
    assert (Hk2 : 0 < k2) by lia. specialize (Hl Hk2).
    assert (2 ^ 53 * 2 ^ k1 ≤ 2 ^ 52 * 2 ^ k2); [|lia].
    rewrite <- !Z.pow_add_r by lia. apply Z.pow_le_mono_r; lia.
Qed.

Lemma rne_nonneg (p d : Z) : 0 ≤ p → 0 < d → 0 ≤ rne p d.
Proof. intros Hp Hd. pose proof (rne_bounds p d Hd). pose proof (Z.div_pos p d Hp Hd). lia. Qed.

Lemma round_pos_nonneg (p q : Z) : 0 ≤ p → 0 < q → 0 ≤ round_pos p q.
Proof.
  intros Hp Hq. unfold round_pos. set (k := Z.max 0 _).
  assert (0 < 2 ^ k) by (apply Z.pow_pos_nonneg; lia).
  apply Z.mul_nonneg_nonneg; [|lia]. apply rne_nonneg; [done|]. apply Z.mul_pos_pos; lia.
Qed.

Lemma round_pos_exact (m k : Z) : 0 ≤ m < 2 ^ 53 → 0 ≤ k → round_pos (m * 2 ^ k) 1 = m * 2 ^ k.
Proof.
  intros Hm Hk. unfold round_pos. rewrite Z.div_1_r.
  set (k' := Z.max 0 (Z.log2 (m * 2 ^ k) - 52)).
  assert (Hk' : 0 ≤ k' ≤ k).
  { unfold k'. destruct (Z.eq_dec m 0) as [->|Hm0]; [simpl; lia|].
    rewrite Z.log2_mul_pow2 by lia.
    assert (Z.log2 m < 53) by (apply Z.log2_lt_pow2; lia). lia. }
  assert (E : m * 2 ^ k = (m * 2 ^ (k - k')) * (1 * 2 ^ k')).
  { rewrite Z.mul_1_l, <- Z.mul_assoc, <- Z.pow_add_r by lia. f_equal. f_equal. lia. }
  rewrite E at 1. rewrite rne_exact by (rewrite Z.mul_1_l; apply Z.pow_pos_nonneg; lia).
  rewrite <- Z.mul_assoc, <- Z.pow_add_r by lia. f_equal. f_equal. lia.
Qed.

Lemma round_pos_repr (s : Z) : 0 ≤ s → ∃ m k, 0 ≤ m < 2 ^ 53 ∧ 0 ≤ k ∧ round_pos s 1 = m * 2 ^ k.
Proof.
  intros Hs. pose proof (round_pos_upper s 1 Hs ltac:(lia)) as Hu. cbv zeta in Hu.
  revert Hu. unfold round_pos. set (k := Z.max 0 _). intros Hu.
  assert (Hk : 0 ≤ k) by (unfold k; lia).
  assert (H2k : 0 < 2 ^ k) by (apply Z.pow_pos_nonneg; lia).
  assert (Hr0 : 0 ≤ rne s (1 * 2 ^ k)) by (apply rne_nonneg; lia).
  assert (Hr1 : rne s (1 * 2 ^ k) ≤ 2 ^ 53) by nia.
  destruct (Z.eq_dec (rne s (1 * 2 ^ k)) (2 ^ 53)) as [E|E].
  - exists 1, (53 + k). split; [lia|]. split; [lia|]. rewrite E, Z.pow_add_r by lia. lia.
  - exists (rne s (1 * 2 ^ k)), k. split; [lia|]. split; [lia|]. done.
Qed.

Lemma round_pos_idem (s : Z) : 0 ≤ s → round_pos (round_pos s 1) 1 = round_pos s 1.
Proof.
  intros Hs. destruct (round_pos_repr s Hs) as (m & k & Hm & Hk & ->).
  apply round_pos_exact; done.
Qed.

Lemma round_pos_zero (q : Z) : 0 < q → round_pos 0 q = 0.
Proof.
  intros Hq. unfold round_pos. rewrite Z.div_0_l by lia. simpl Z.log2. simpl Z.max.
  rewrite Z.pow_0_r, !Z.mul_1_r. unfold rne. rewrite Z.div_0_l, Z.mod_0_l by lia.
  destruct (Z.compare_spec (2 * 0) q); lia.
Qed.

Lemma round_pos_unit (q : Z) : 0 < q → round_pos (q * 2 ^ units_exp) q = 2 ^ units_exp.
Proof.
  intros Hq. unfold round_pos, units_exp.
  rewrite (Z.mul_comm q), Z.div_mul by lia. rewrite Z.log2_pow2 by lia.
  change (Z.max 0 (1074 - 52)) with 1022.
  replace (2 ^ 1074 * q) with (2 ^ 52 * (q * 2 ^ 1022)) by (change (2 ^ 1074) with (2 ^ 52 * 2 ^ 1022); ring).
  rewrite rne_exact by (apply Z.mul_pos_pos; lia). reflexivity.
Qed.

Lemma py_truediv_nonneg (a b : Z) : 0 ≤ a → 0 < b →
  py_truediv a b =
    (let n := round_pos (a * 2 ^ units_exp) b in
     if Z.leb overflow_units n then Err OverflowError else Ok (Fin n)).
Proof.
  intros Ha Hb. unfold py_truediv. rewrite (proj2 (Z.eqb_neq b 0)) by lia.
  rewrite (Z.abs_eq a), (Z.abs_eq b) by lia. rewrite (Z.sgn_pos b) by lia. cbv zeta.
  destruct (Z.eq_dec a 0) as [->|Ha0].
  - rewrite Z.mul_0_l, round_pos_zero by lia. done.
  - rewrite (Z.sgn_pos a) by lia. rewrite ?Z.mul_1_l, ?Z.mul_1_r. done.
Qed.

Lemma py_max_one_fin (n : Z) :
  py_max one (Fin n) = if Z.ltb (2 ^ units_exp) n then Fin n else one.
Proof. done. Qed.

Lemma py_max_one_le (n1 n2 : Z) : n1 ≤ n2 → float_leb (py_max one (Fin n1)) (py_max one (Fin n2)) = true.
Proof.
  intros Hn. rewrite !py_max_one_fin.
  destruct (Z.ltb_spec (2 ^ units_exp) n1), (Z.ltb_spec (2 ^ units_exp) n2);
    simpl; apply Z.leb_le; lia.
Qed.

Lemma py_max_one_small (n : Z) : n ≤ 2 ^ units_exp → py_max one (Fin n) = one.
Proof. intros Hn. rewrite py_max_one_fin. destruct (Z.ltb_spec (2 ^ units_exp) n); [lia|done]. Qed.

(** A quotient [a / b] with [0 <= a <= b] is at most [1.0], so the
    [max(1.0, a / b)] of the scaling factors is [1.0]. *)
Lemma max_one_ratio_le_one (a b : Z) : 0 ≤ a → a ≤ b → 0 < b →
  (let* q := py_truediv a b in Ok (py_max one q)) = Ok one.
Proof.
  intros Ha Hab Hb. rewrite py_truediv_nonneg by lia. cbv zeta.
  assert (Hle : round_pos (a * 2 ^ units_exp) b ≤ 2 ^ units_exp).
  { transitivity (round_pos (b * 2 ^ units_exp) b); [|rewrite round_pos_unit; lia].
    apply round_pos_mono; [|apply Z.mul_le_mono_nonneg_r|]; lia. }
  destruct (Z.leb_spec overflow_units (round_pos (a * 2 ^ units_exp) b)) as [Ho|_].
  - unfold overflow_units in Ho.
    assert (2 ^ units_exp < 2 ^ (1024 + units_exp)) by (apply Z.pow_lt_mono_r; unfold units_exp; lia). lia.
  - cbn [rbind]. rewrite py_max_one_small by done. done.
Qed.

(** [max(1.0, a / b)] is monotone in [a] for a fixed [b > 0]. *)
Lemma max_one_ratio_mono (a1 a2 b : Z) (x1 x2 : pyfloat) : 0 ≤ a1 → a1 ≤ a2 → 0 < b →
  (let* q := py_truediv a1 b in Ok (py_max one q)) = Ok x1 →
  (let* q := py_truediv a2 b in Ok (py_max one q)) = Ok x2 →
  float_leb x1 x2 = true.
Proof.
  intros Ha1 Ha Hb. rewrite !py_truediv_nonneg by lia. cbv zeta.
  destruct (Z.leb overflow_units _); [done|]. destruct (Z.leb overflow_units _); [done|].
  cbn [rbind]. intros [= <-] [= <-]. apply py_max_one_le.
  apply round_pos_mono; [|apply Z.mul_le_mono_nonneg_r|]; lia.
Qed.

Lemma consecutive_product_nonneg (t : Z) : 0 ≤ (t - 1) * (t - 2).
Proof. destruct (Z.le_gt_cases t 1); nia. Qed.

(** ** The float accumulators only grow *)

(** A value an accumulator can hold: [+inf] or a non-negative double. *)
Definition counter_ok (x : pyfloat) : Prop :=
  match x with Fin n => 0 ≤ n ∧ round_pos n 1 = n | PInf => True | _ => False end.

(** A weight that is added: [+inf] or non-negative. *)
Definition weight_ok (x : pyfloat) : Prop :=
  match x with Fin n => 0 ≤ n | PInf => True | _ => False end.

Definition counters_ok (st : state pyfloat) : Prop :=
  counter_ok (tau st) ∧ map_Forall (fun _ x => counter_ok x) (tau_vertices st).

(** [tau] and every entry of the [defaultdict] are at least as large in
    [st'] as in [st]. *)
Definition counters_le (st st' : state pyfloat) : Prop :=
  float_leb (tau st) (tau st') = true ∧
  ∀ x, float_leb (Impr.dd_get (tau_vertices st) x) (Impr.dd_get (tau_vertices st') x) = true.

Lemma counter_ok_zero : counter_ok (Fin 0).
Proof. split; [lia|]. apply round_pos_zero. lia. Qed.

Lemma float_leb_refl (x : pyfloat) : counter_ok x → float_leb x x = true.
Proof. destruct x; simpl; try done. intros _. apply Z.leb_refl. Qed.

Lemma float_leb_trans (x y z : pyfloat) :
  float_leb x y = true → float_leb y z = true → float_leb x z = true.
Proof. destruct x, y, z; simpl; try done. rewrite !Z.leb_le. lia. Qed.

Lemma float_add_grows (x w : pyfloat) :
  counter_ok x → weight_ok w → counter_ok (float_add x w) ∧ float_leb x (float_add x w) = true.
Proof.
  destruct x as [a| | |], w as [b| | |]; simpl; try done.
  intros [Ha Hra] Hb. rewrite Z.abs_eq by lia.
  assert (Hn0 : 0 ≤ round_pos (a + b) 1) by (apply round_pos_nonneg; lia).
  assert (Han : a ≤ round_pos (a + b) 1).
  { rewrite <- Hra at 1. apply round_pos_mono; lia. }
  destruct (Z.leb_spec overflow_units (round_pos (a + b) 1)) as [Ho|Ho].
  - destruct (Z.ltb_spec 0 (a + b)); [done|].
    assert (a + b = 0) as Hs by lia. rewrite Hs, round_pos_zero in Ho by lia.
    unfold overflow_units in Ho. assert (0 < 2 ^ (1024 + units_exp)) by (apply Z.pow_pos_nonneg; unfold units_exp; lia). lia.
  - destruct (Z.eq_dec (a + b) 0) as [Hs|Hs].
    + rewrite Hs. simpl. split; [apply counter_ok_zero|]. apply Z.leb_le. lia.
    + rewrite Z.sgn_pos, Z.mul_1_l by lia. split; [split; [done|]|].
      * apply round_pos_idem. lia.
      * apply Z.leb_le. done.
Qed.

Lemma weight_ok_max_one (q : pyfloat) : weight_ok (py_max one q).
Proof.
  unfold py_max. destruct q as [n| | |]; simpl; try done.
  destruct (Z.ltb_spec (2 ^ units_exp) n); simpl; [|apply Z.pow_nonneg]; lia.
Qed.

Lemma weight_ok_max_result (m : result pyfloat) (w : pyfloat) :
  (let* q := m in Ok (py_max one q)) = Ok w → weight_ok w.
Proof. destruct m; cbn [rbind]; [intros [= <-]; apply weight_ok_max_one|done]. Qed.

Lemma dd_get_ok (m : gmap Z pyfloat) (x : Z) :
  map_Forall (fun _ y => counter_ok y) m → counter_ok (Impr.dd_get m x).
Proof.
  intros Hm. unfold Impr.dd_get. destruct (m !! x) as [y|] eqn:E; simpl.
  - exact (map_Forall_lookup_1 _ _ _ _ Hm E).
  - apply counter_ok_zero.
Qed.

Lemma dd_add_grows (m : gmap Z pyfloat) (k : Z) (w : pyfloat) :
  map_Forall (fun _ y => counter_ok y) m → weight_ok w →
  map_Forall (fun _ y => counter_ok y) (Impr.dd_add m k w) ∧
  ∀ x, float_leb (Impr.dd_get m x) (Impr.dd_get (Impr.dd_add m k w) x) = true.
Proof.
  intros Hm Hw. destruct (float_add_grows (Impr.dd_get m k) w (dd_get_ok m k Hm) Hw) as [Hok Hle].
  unfold Impr.dd_add. split.
  - apply map_Forall_insert_2; done.
  - intros x. unfold Impr.dd_get at 2. rewrite lookup_insert.
    destruct (decide (k = x)) as [<-|Hne]; simpl; [exact Hle|].
    apply float_leb_refl, dd_get_ok, Hm.
Qed.

Lemma counters_le_refl (st : state pyfloat) : counters_ok st → counters_le st st.
Proof.
  intros [Ht Hm]. split; [by apply float_leb_refl|]. intros x. apply float_leb_refl, dd_get_ok, Hm.
Qed.

Lemma counters_le_trans (st1 st2 st3 : state pyfloat) :
  counters_le st1 st2 → counters_le st2 st3 → counters_le st1 st3.
Proof.
  intros [H1 H1'] [H2 H2']. split; [by eapply float_leb_trans|].
  intros x. eapply float_leb_trans; [apply H1'|apply H2'].
Qed.

(** Growth of the counters along a step, in the form used for each layer. *)
Definition grows (st st' : state pyfloat) : Prop :=
  counters_ok st → counters_ok st' ∧ counters_le st st'.

Lemma grows_trans (st1 st2 st3 : state pyfloat) : grows st1 st2 → grows st2 st3 → grows st1 st3.
Proof.
  intros H12 H23 H1. destruct (H12 H1) as [H2 L12]. destruct (H23 H2) as [H3 L23].
  split; [done|]. by eapply counters_le_trans.
Qed.

Lemma grows_same (st st' : state pyfloat) :
  tau st' = tau st → tau_vertices st' = tau_vertices st → grows st st'.
Proof.
  intros Ht Hm Hok. destruct Hok as [Hk Hf]. unfold counters_ok, counters_le. rewrite Ht, Hm.
  split; [done|]. apply counters_le_refl. done.
Qed.

Lemma grows_dd_add (st : state pyfloat) (x : pyfloat) (m : gmap Z pyfloat) (k : Z) (w : pyfloat) :
  weight_ok w → grows st (set_counters st x m) → grows st (set_counters st x (Impr.dd_add m k w)).
Proof.
  intros Hw H Hok. destruct (H Hok) as [[Hx Hm] [Lx Lm]].
  destruct (dd_add_grows m k w Hm Hw) as [Hm' Lm'].
  split; [split; done|]. split; [done|]. intros y. eapply float_leb_trans; [apply Lm|apply Lm'].
Qed.

Lemma grows_tau (st : state pyfloat) (w : pyfloat) :
  weight_ok w → grows st (set_counters st (float_add (tau st) w) (tau_vertices st)).
Proof.
  intros Hw [Ht Hm]. destruct (float_add_grows _ _ Ht Hw) as [Ht' Lt].
  split; [split; done|]. split; [done|]. intros x. apply float_leb_refl, dd_get_ok, Hm.
Qed.

Lemma weight_ok_one : weight_ok one.
Proof. simpl. apply Z.pow_nonneg. lia. Qed.

Lemma impr_update_one_grows (w : pyfloat) (u v c : Z) (st : state pyfloat) :
  weight_ok w → grows st (Impr.update_one w u v st c).
Proof.
  intros Hw. unfold Impr.update_one.
  apply grows_dd_add; [done|]. apply grows_dd_add; [done|]. apply grows_dd_add; [done|].
  apply grows_tau. done.
Qed.

Lemma impr_foldl_grows (w : pyfloat) (u v : Z) (l : list Z) (st : state pyfloat) :
  weight_ok w → grows st (foldl (Impr.update_one w u v) st l).
Proof.
  intros Hw. revert st. induction l as [|c l IH]; intros st; simpl.
  - apply grows_same; done.
  - eapply grows_trans; [apply impr_update_one_grows; done|apply IH].
Qed.

Lemma impr_update_counters_grows (cfg : config) (e : list Z) (inc : bool) (st r : state pyfloat) :
  Impr._update_counters cfg e inc st = Ok r → grows st r.
Proof.
  unfold Impr._update_counters. destruct (unpack2 e) as [[u v]|]; cbn [rbind]; [|done].
  destruct (if inc then Impr.xi cfg st else Ok (Fin 0)) as [w|] eqn:Hw; cbn [rbind]; [|done].
  intros [= <-]. apply impr_foldl_grows.
  destruct inc; [|injection Hw as <-; simpl; lia].
  revert Hw. unfold Impr.xi, xi_impr. destruct (Z.ltb _ 3).
  - intros [= <-]. apply weight_ok_one.
  - apply weight_ok_max_result.
Qed.

Lemma impr_process_edge_grows (cfg : config) (rnd : Z -> Z * nat) (st r : state pyfloat) (edge : list Z) :
  Impr.process_edge cfg rnd st edge = Ok r → grows st r.
Proof.
  unfold Impr.process_edge.
  destruct (Impr._update_counters cfg edge true _) as [st1|] eqn:Hu; cbn [rbind]; [|done].
  apply impr_update_counters_grows in Hu.
  destruct (Impr._sample_edge cfg _ _) as [[adm st2]|] eqn:Hs; cbn [rbind]; [|done].
  apply impr_sample_edge_shape in Hs as [_ [Ht2 Hm2]].
  intros Hr. eapply grows_trans; [apply grows_same; done|]. eapply grows_trans; [exact Hu|].
  destruct adm; injection Hr as <-; apply grows_same; done.
Qed.

Lemma impr_run_line_grows (cfg : config) (rnd : Z -> Z * nat) (sc sc' : state pyfloat * Z) (raw : string) :
  Impr.run_line cfg rnd sc raw = Ok sc' → grows sc.1 sc'.1.
Proof.
  destruct sc as [st k]. unfold Impr.run_line.
  destruct (line_edge raw) as [[edge|]|]; cbn [rbind]; [|intros [= <-]; apply grows_same; done|done].
  destruct (dedup cfg st edge) as [[st1|]|] eqn:Hd; cbn [rbind]; [|intros [= <-]; apply grows_same; done|done].
  apply dedup_frame in Hd as (_ & _ & Ht1 & Hm1).
  destruct (Impr.process_edge cfg rnd st1 edge) as [r|] eqn:Hp; cbn [rbind]; [|done].
  intros [= <-]. simpl. eapply grows_trans; [apply grows_same; done|].
  eapply impr_process_edge_grows. exact Hp.
Qed.

Lemma run_lines_grows {St} (proj : St -> state pyfloat) (step : St -> string -> result St)
    (lines : list string) (s s' : St) :
  (∀ a b l, step a l = Ok b → grows (proj a) (proj b)) →
  run_lines step s lines = Ok s' → grows (proj s) (proj s').
Proof.
  intros Hstep. revert s. induction lines as [|l ls IH]; intros s; simpl.
  - intros [= <-]. apply grows_same; done.
  - destruct (step s l) as [a|] eqn:E; cbn [rbind]; [|done].
    intros H. eapply grows_trans; [exact (Hstep _ _ _ E)|]. apply IH. exact H.
Qed.

Lemma grows_dd_add_fold (st : state pyfloat) (x : pyfloat) (m : gmap Z pyfloat) (w : pyfloat) (l : list Z) :
  weight_ok w → grows st (set_counters st x m) →
  grows st (set_counters st x (foldl (fun m node => Impr.dd_add m node w) m l)).
Proof.
  intros Hw. revert m. induction l as [|n l IH]; intros m H; simpl; [done|].
  apply IH. apply grows_dd_add; done.
Qed.

Lemma a3_update_one_grows (cfg : config) (edge : list Z) (st r : state pyfloat) (c : Z) :
  A3.update_one cfg edge st c = Ok r → grows st r.
Proof.
  unfold A3.update_one. destruct (A3.eta cfg st) as [w|] eqn:Hw; cbn [rbind]; [|done].
  assert (Hwk : weight_ok w) by (unfold A3.eta, eta_a3 in Hw; exact (weight_ok_max_result _ _ Hw)).
  intros [= <-]. apply grows_dd_add_fold; [done|]. apply grows_dd_add; [done|]. apply grows_tau. done.
Qed.

Lemma a3_fold_grows (cfg : config) (edge : list Z) (l : list Z) (st r : state pyfloat) :
  A3.fold_result (A3.update_one cfg edge) st l = Ok r → grows st r.
Proof.
  revert st. induction l as [|c l IH]; intros st; simpl.
  - intros [= <-]. apply grows_same; done.
  - destruct (A3.update_one cfg edge st c) as [a|] eqn:E; cbn [rbind]; [|done].
    intros H. eapply grows_trans; [eapply a3_update_one_grows; exact E|]. apply IH. exact H.
Qed.

Lemma a3_run_line_grows (cfg : config) (rnd : Z -> bool * nat) (st r : state pyfloat) (line : string) :
  A3.run_line cfg rnd st line = Ok r → grows st r.
Proof.
  unfold A3.run_line. destruct (A3._get_edge _) as [edge|]; cbn [rbind]; [|done].
  destruct (A3._update_counters cfg edge _) as [st1|] eqn:Hu; cbn [rbind]; [|done].
  unfold A3._update_counters in Hu.
  destruct (A3.reduce_inter _); cbn [rbind] in Hu; [|done]. apply a3_fold_grows in Hu.
  destruct (A3._sample_edge cfg _ _) as [[adm st2]|] eqn:Hs; cbn [rbind]; [|done].
  apply a3_sample_edge_counters in Hs as (Ht2 & Hm2 & _).
  intros Hr. eapply grows_trans; [apply grows_same; done|]. eapply grows_trans; [exact Hu|].
  destruct adm; injection Hr as <-; apply grows_same; done.
Qed.

Lemma counters_ok_init (S0 : gset (list Z)) (t0 : Z) (seen : option (gset (list Z))) :
  counters_ok (mk_state S0 t0 (Fin 0) ∅ seen).
Proof. split; [apply counter_ok_zero|apply map_Forall_empty]. Qed.

(* ------------------------------------------------------------------ *)
(** ** Triangles of a sample *)

(** [triangles S]: the three-vertex frozensets all of whose pairs are
    edges of [S]; the quantity the counters of TRIEST-BASE are meant to
    hold. [triangle_of] tests one candidate. *)
Definition triangle_of (S : gset (list Z)) (tr : list Z) : bool :=
  match tr with
  | [a; b; c] => bool_decide (frozenset [a; b] ∈ S ∧ frozenset [a; c] ∈ S ∧ frozenset [b; c] ∈ S)
  | _ => false
  end.

Definition vertices (S : gset (list Z)) : list Z := concat (elements S).

Definition triangles (S : gset (list Z)) : gset (list Z) :=
  filter (fun tr => triangle_of S tr = true)
    (list_to_set
       (concat (map (fun a => concat (map (fun b => map (fun c => frozenset [a; b; c])
                                                      (vertices S)) (vertices S))) (vertices S)))).

Lemma fs_elem (l : list Z) (x : Z) : x ∈ frozenset l ↔ x ∈ l.
Proof. unfold frozenset. rewrite elem_of_elements, elem_of_list_to_set. done. Qed.

Lemma fs_eq (l1 l2 : list Z) : (∀ x, x ∈ l1 ↔ x ∈ l2) → frozenset l1 = frozenset l2.
Proof.
  intros H. unfold frozenset. f_equal. apply set_eq. intros x.
  rewrite !elem_of_list_to_set. done.
Qed.

Lemma fs_idem (l : list Z) : frozenset (frozenset l) = frozenset l.
Proof. unfold frozenset. by rewrite (list_to_set_elements_L (C := gset Z)). Qed.

Lemma fs_nodup (l : list Z) : NoDup (frozenset l).
Proof. unfold frozenset. apply (NoDup_elements (C := gset Z)). Qed.

Ltac fs_perm := apply fs_eq; intros; rewrite ?elem_of_cons, ?elem_of_nil; naive_solver.

Lemma pair_in_tri (S : gset (list Z)) (a b c x y : Z) :
  frozenset [a; b] ∈ S → frozenset [a; c] ∈ S → frozenset [b; c] ∈ S →
  x ∈ [a; b; c] → y ∈ [a; b; c] → x ≠ y → frozenset [x; y] ∈ S.
Proof.
  intros Hab Hac Hbc Hx Hy Hxy. rewrite ?elem_of_cons, ?elem_of_nil in Hx, Hy.
  destruct Hx as [->|[->|[->|[]]]]; destruct Hy as [->|[->|[->|[]]]]; try done;
    first [ assumption
          | replace (frozenset [b; a]) with (frozenset [a; b]) by fs_perm; assumption
          | replace (frozenset [c; a]) with (frozenset [a; c]) by fs_perm; assumption
          | replace (frozenset [c; b]) with (frozenset [b; c]) by fs_perm; assumption ].
Qed.

Lemma nodup3 (x y z : Z) : NoDup [x; y; z] → x ≠ y ∧ x ≠ z ∧ y ≠ z.
Proof.
  intros Hnd. apply NoDup_cons in Hnd as [Hx Hnd]. apply NoDup_cons in Hnd as [Hy _].
  split_and!; intros ->; [apply Hx; constructor|apply Hx; do 2 constructor|apply Hy; constructor].
Qed.

Lemma triangles_spec (S : gset (list Z)) (tr : list Z) :
  tr ∈ triangles S ↔
  ∃ a b c, a ≠ b ∧ a ≠ c ∧ b ≠ c ∧ tr = frozenset [a; b; c] ∧
    frozenset [a; b] ∈ S ∧ frozenset [a; c] ∈ S ∧ frozenset [b; c] ∈ S.
Proof.
  unfold triangles. rewrite elem_of_filter, elem_of_list_to_set. split.
  - intros [Htri Hin].
    assert (Hfs : frozenset tr = tr).
    { apply list_elem_of_In, in_concat in Hin as (l1 & Hl1 & Hin).
      apply in_map_iff in Hl1 as (a & <- & _).
      apply in_concat in Hin as (l2 & Hl2 & Hin).
      apply in_map_iff in Hl2 as (b & <- & _).
      apply in_map_iff in Hin as (c & <- & _). apply fs_idem. }
    clear Hin.
    destruct tr as [|x [|y [|z [|]]]]; try done. simpl in Htri.
    apply bool_decide_eq_true in Htri as (H1 & H2 & H3).
    pose proof (fs_nodup [x; y; z]) as Hnd. rewrite Hfs in Hnd.
    apply nodup3 in Hnd as (? & ? & ?).
    exists x, y, z. split_and!; congruence.
  - intros (a & b & c & Hab & Hac & Hbc & -> & H1 & H2 & H3).
    assert (Hv : ∀ w l, l ∈ S → w ∈ l → In w (vertices S)).
    { intros w l Hl Hw. unfold vertices. apply in_concat. exists l.
      split; [by apply list_elem_of_In, elem_of_elements|by apply list_elem_of_In]. }
    split.
    + assert (Hlen : length (frozenset [a; b; c]) = 3%nat).
      { unfold frozenset. change (length (elements ?X)) with (size X).
        rewrite size_list_to_set; [done|]. apply NoDup_cons; split; [set_solver|].
        apply NoDup_cons; split; [set_solver|]. apply NoDup_singleton. }
      assert (Hm : ∀ w, w ∈ frozenset [a; b; c] → w ∈ [a; b; c]) by (intros w; by rewrite fs_elem).
      pose proof (fs_nodup [a; b; c]) as Hnd.
      destruct (frozenset [a; b; c]) as [|x [|y [|z [|]]]]; try done. simpl.
      apply nodup3 in Hnd as (? & ? & ?).
      assert (x ∈ [a; b; c]) by (apply Hm; repeat constructor).
      assert (y ∈ [a; b; c]) by (apply Hm; repeat constructor).
      assert (z ∈ [a; b; c]) by (apply Hm; repeat constructor).
      apply bool_decide_eq_true. split_and!; eapply (pair_in_tri S a b c); done.
    + apply list_elem_of_In, in_concat. eexists. split.
      { apply in_map_iff. exists a. split; [done|]. eapply Hv; [exact H1|]. rewrite fs_elem. repeat constructor. }
      apply in_concat. eexists. split.
      { apply in_map_iff. exists b. split; [done|]. eapply Hv; [exact H1|]. rewrite fs_elem. repeat constructor. }
      apply in_map_iff. exists c. split; [done|]. eapply Hv; [exact H2|]. rewrite fs_elem. repeat constructor.
Qed.

Lemma elem_of_pair (x u v : Z) : x ∈ [u; v] ↔ x = u ∨ x = v.
Proof. rewrite !elem_of_cons, elem_of_nil. naive_solver. Qed.

Lemma elem_of_triple (x a b c : Z) : x ∈ [a; b; c] ↔ x = a ∨ x = b ∨ x = c.
Proof. rewrite !elem_of_cons, elem_of_nil. naive_solver. Qed.

Lemma fs_pair_inv (a b u v : Z) :
  a ≠ b → frozenset [a; b] = frozenset [u; v] → (a = u ∧ b = v) ∨ (a = v ∧ b = u).
Proof.
  intros Hab Heq.
  assert (Hm : ∀ x, x = a ∨ x = b ↔ x = u ∨ x = v)
    by (intros x; rewrite <- !elem_of_pair, <- (fs_elem [a; b]), <- (fs_elem [u; v]), Heq; done).
  pose proof (proj1 (Hm a) (or_introl eq_refl)) as Ha.
  pose proof (proj1 (Hm b) (or_intror eq_refl)) as Hb.
  pose proof (proj2 (Hm u) (or_introl eq_refl)) as Hu.
  pose proof (proj2 (Hm v) (or_intror eq_refl)) as Hv.
  clear Hm Heq. destruct Ha as [-> | ->]; destruct Hb as [-> | ->]; naive_solver.
Qed.

Lemma proper_unpack (e : list Z) :
  proper_edge e → ∃ u v, e = [u; v] ∧ u ≠ v ∧ frozenset [u; v] = e.
Proof.
  intros (a & b & Hab & ->).
  assert (Hlen : length (frozenset [a; b]) = 2%nat).
  { unfold frozenset. change (length (elements ?X)) with (size X).
    rewrite size_list_to_set; [done|]. apply NoDup_cons; split; [set_solver|]. apply NoDup_singleton. }
  pose proof (fs_idem [a; b]) as Hid. pose proof (fs_nodup [a; b]) as Hnd.
  destruct (frozenset [a; b]) as [|u [|v [|]]]; try done.
  exists u, v. split; [done|]. split; [|done].
  intros ->. apply NoDup_cons in Hnd as [Hx _]. apply Hx. constructor.
Qed.

Section triangle_counts.

Context (S : gset (list Z)).
Hypothesis HS : ∀ e, e ∈ S → proper_edge e.

Lemma shared_proper (u v c : Z) :
  c ∈ Base.shared_neighborhood S u v ↔
  c ≠ u ∧ c ≠ v ∧ frozenset [u; c] ∈ S ∧ frozenset [v; c] ∈ S.
Proof.
  rewrite shared_spec. split.
  - intros [(l1 & H1 & Hu1 & Hc1 & Hn1) (l2 & H2 & Hv2 & Hc2 & Hn2)].
    destruct (HS l1 H1) as (a1 & b1 & Hab1 & ->). destruct (HS l2 H2) as (a2 & b2 & Hab2 & ->).
    rewrite fs_elem in Hu1, Hc1, Hv2, Hc2.
    split; [done|]. split; [done|]. split.
    + replace (frozenset [u; c]) with (frozenset [a1; b1]); [done|].
      apply fs_eq. intros x. clear -Hu1 Hc1 Hn1 Hab1. set_solver.
    + replace (frozenset [v; c]) with (frozenset [a2; b2]); [done|].
      apply fs_eq. intros x. clear -Hv2 Hc2 Hn2 Hab2. set_solver.
  - intros (Hcu & Hcv & H1 & H2). split.
    + exists (frozenset [u; c]). rewrite !fs_elem. split_and!; [done| | |done]; repeat constructor.
    + exists (frozenset [v; c]). rewrite !fs_elem. split_and!; [done| | |done]; repeat constructor.
Qed.

(** The triangles closed by a new edge [{u, v}]: one per shared neighbour. *)
Definition tri_image (u v : Z) : gset (list Z) :=
  set_map (fun c => frozenset [u; v; c]) (Base.shared_neighborhood S u v).

Lemma tri_insert_case (u v a b c : Z) :
  u ≠ v → a ≠ b → a ≠ c → b ≠ c → frozenset [a; b] = frozenset [u; v] →
  frozenset [a; c] ∈ ({[frozenset [u; v]]} ∪ S) → frozenset [b; c] ∈ ({[frozenset [u; v]]} ∪ S) →
  frozenset [a; b; c] ∈ tri_image u v.
Proof.
  intros Huv Hab Hac Hbc Heq H1 H2. apply fs_pair_inv in Heq; [|done]. destruct Heq as [[-> ->]|[-> ->]].
  - rewrite elem_of_union, elem_of_singleton in H1, H2.
    destruct H1 as [H1|H1]; [apply fs_pair_inv in H1; [|done]; exfalso; destruct H1 as [[? ?]|[? ?]]; congruence|].
    destruct H2 as [H2|H2]; [apply fs_pair_inv in H2; [|done]; exfalso; destruct H2 as [[? ?]|[? ?]]; congruence|].
    apply elem_of_map. exists c. split; [done|]. apply shared_proper. done.
  - rewrite elem_of_union, elem_of_singleton in H1, H2.
    destruct H1 as [H1|H1]; [apply fs_pair_inv in H1; [|done]; exfalso; destruct H1 as [[? ?]|[? ?]]; congruence|].
    destruct H2 as [H2|H2]; [apply fs_pair_inv in H2; [|done]; exfalso; destruct H2 as [[? ?]|[? ?]]; congruence|].
    apply elem_of_map. exists c. split; [fs_perm|]. apply shared_proper. done.
Qed.

Lemma triangles_insert (u v : Z) :
  u ≠ v → frozenset [u; v] ∉ S →
  triangles ({[frozenset [u; v]]} ∪ S) = triangles S ∪ tri_image u v ∧
  triangles S ## tri_image u v.
Proof.
  intros Huv Hnot. split.
  - apply set_eq. intros tr. rewrite elem_of_union, !triangles_spec. split.
    + intros (a & b & c & Hab & Hac & Hbc & -> & H1 & H2 & H3).
      destruct (decide (frozenset [a; b] = frozenset [u; v])) as [E|E].
      { right. by apply tri_insert_case. }
      destruct (decide (frozenset [a; c] = frozenset [u; v])) as [E'|E'].
      { right. replace (frozenset [a; b; c]) with (frozenset [a; c; b]) by fs_perm.
        apply tri_insert_case; try done.
        replace (frozenset [c; b]) with (frozenset [b; c]) by fs_perm. done. }
      destruct (decide (frozenset [b; c] = frozenset [u; v])) as [E''|E''].
      { right. replace (frozenset [a; b; c]) with (frozenset [b; c; a]) by fs_perm.
        apply tri_insert_case; try done.
        - replace (frozenset [b; a]) with (frozenset [a; b]) by fs_perm. done.
        - replace (frozenset [c; a]) with (frozenset [a; c]) by fs_perm. done. }
      left. exists a, b, c. rewrite elem_of_union, elem_of_singleton in H1, H2, H3. naive_solver.
    + intros [(a & b & c & Hab & Hac & Hbc & -> & H1 & H2 & H3)|Hi].
      * exists a, b, c. set_solver.
      * apply elem_of_map in Hi as (c & -> & Hc). apply shared_proper in Hc as (? & ? & ? & ?).
        exists u, v, c. set_solver.
  - intros tr Ht Hi. apply triangles_spec in Ht as (a & b & c & Hab & Hac & Hbc & -> & H1 & H2 & H3).
    apply elem_of_map in Hi as (c' & Heq & _). apply Hnot.
    apply (pair_in_tri S a b c); [done|done|done| | |done].
    + rewrite <- fs_elem, Heq, fs_elem. repeat constructor.
    + rewrite <- fs_elem, Heq, fs_elem. repeat constructor.
Qed.

Lemma tri_image_size (u v : Z) :
  size (tri_image u v) = size (Base.shared_neighborhood S u v).
Proof.
  unfold tri_image, set_map. rewrite size_list_to_set, length_fmap; [done|].
  apply NoDup_fmap_2_strong; [|apply NoDup_elements].
  intros c c' Hc Hc' Heq. apply elem_of_elements, shared_spec in Hc as [(_ & _ & _ & _ & Hcu) (_ & _ & _ & _ & Hcv)].
  assert (Hm : c ∈ [u; v; c']) by (rewrite <- fs_elem, <- Heq, fs_elem; repeat constructor).
  clear Heq Hc'. set_solver.
Qed.

Lemma tri_image_at (u v x : Z) :
  u ≠ v →
  Z.of_nat (size (filter (fun tr : list Z => x ∈ tr) (tri_image u v))) =
  (if decide (x = u) then Z.of_nat (size (Base.shared_neighborhood S u v)) else 0) +
  (if decide (x = v) then Z.of_nat (size (Base.shared_neighborhood S u v)) else 0) +
  (if decide (x ∈ Base.shared_neighborhood S u v) then 1 else 0).
Proof.
  intros Huv.
  assert (Hnot : ∀ c, c ∈ Base.shared_neighborhood S u v → c ≠ u ∧ c ≠ v).
  { intros c Hc. apply shared_spec in Hc as [(_ & _ & _ & _ & ?) (_ & _ & _ & _ & ?)]. done. }
  destruct (decide (x = u)) as [->|Hxu]; [|destruct (decide (x = v)) as [->|Hxv]].
  - rewrite decide_False by done. rewrite decide_False by (intros Hc; by apply Hnot in Hc as []).
    rewrite <- tri_image_size.
    replace (filter _ (tri_image u v)) with (tri_image u v); [lia|].
    apply set_eq. intros tr. rewrite elem_of_filter. split; [|naive_solver].
    intros Hi. split; [|done]. apply elem_of_map in Hi as (c & -> & _). rewrite fs_elem. repeat constructor.
  - rewrite decide_False by (intros Hc; by apply Hnot in Hc as []).
    rewrite <- tri_image_size.
    replace (filter _ (tri_image u v)) with (tri_image u v); [lia|].
    apply set_eq. intros tr. rewrite elem_of_filter. split; [|naive_solver].
    intros Hi. split; [|done]. apply elem_of_map in Hi as (c & -> & _). rewrite fs_elem. repeat constructor.
  - destruct (decide (x ∈ Base.shared_neighborhood S u v)) as [Hx|Hx].
    + replace (filter _ (tri_image u v)) with ({[frozenset [u; v; x]]} : gset (list Z)).
      { rewrite size_singleton. lia. }
      apply set_eq. intros tr. rewrite elem_of_filter, elem_of_singleton. split.
      * intros ->. split; [rewrite fs_elem; repeat constructor|]. apply elem_of_map. eauto.
      * intros [Hin Hi]. apply elem_of_map in Hi as (c & -> & _). rewrite fs_elem in Hin.
        assert (x = c) as -> by set_solver. done.
    + replace (filter _ (tri_image u v)) with (∅ : gset (list Z)).
      { rewrite size_empty. lia. }
      apply set_eq. intros tr. rewrite elem_of_filter. split; [set_solver|].
      intros [Hin Hi]. apply elem_of_map in Hi as (c & -> & Hc). rewrite fs_elem in Hin.
      assert (x = c) as -> by set_solver. done.
Qed.

End triangle_counts.

Lemma dd_add_get (m : gmap Z Z) (k d y : Z) :
  Base.dd_get (Base.dd_add m k d) y = Base.dd_get m y + (if decide (y = k) then d else 0).
Proof.
  unfold Base.dd_get, Base.dd_add. case_decide as Hyk.
  - subst. rewrite lookup_insert_eq. simpl. unfold Base.dd_get. lia.
  - rewrite lookup_insert_ne by congruence. lia.
Qed.

Lemma del_if_zero_get (m : gmap Z Z) (k y : Z) :
  Base.dd_get (Base.del_if_zero m k) y = Base.dd_get m y.
Proof.
  unfold Base.del_if_zero. destruct (Z.eqb_spec (Base.dd_get m k) 0) as [H0|]; [|done].
  unfold Base.dd_get in *. destruct (decide (y = k)) as [->|Hne].
  - rewrite lookup_delete_eq. simpl. lia.
  - rewrite lookup_delete_ne by congruence. done.
Qed.

Lemma base_foldl_counts (l : list Z) (inc : bool) (u v : Z) (st : state Z) :
  let r := foldl (Base.update_one inc u v) st l in
  let s := if inc then 1 else -1 in
  tau r = tau st + s * Z.of_nat (length l) ∧
  ∀ y, Base.dd_get (tau_vertices r) y = Base.dd_get (tau_vertices st) y +
    s * ((if decide (y = u) then Z.of_nat (length l) else 0) +
         (if decide (y = v) then Z.of_nat (length l) else 0) +
         Z.of_nat (length (filter (fun c => c = y) l))).
Proof.
  revert st. induction l as [|c l IH]; intros st; simpl.
  - split; [lia|]. intros y. repeat case_decide; lia.
  - destruct (IH (Base.update_one inc u v st c)) as [Ht Hy]. split.
    + rewrite Ht. unfold Base.update_one. destruct inc; simpl; lia.
    + intros y. rewrite Hy. rewrite filter_cons.
      unfold Base.update_one. destruct inc; simpl;
        rewrite ?del_if_zero_get, !dd_add_get; repeat case_decide; simpl; lia.
Qed.

Lemma nodup_count (l : list Z) (y : Z) :
  NoDup l → Z.of_nat (length (filter (fun c => c = y) l)) = if decide (y ∈ l) then 1 else 0.
Proof.
  induction l as [|c l IH]; intros Hnd.
  - rewrite filter_nil. case_decide as H; [by apply not_elem_of_nil in H|done].
  - apply NoDup_cons in Hnd as [Hc Hnd]. rewrite filter_cons. destruct (decide (c = y)) as [<-|Hcy].
    + cbn [length]. rewrite Nat2Z.inj_succ, IH by done.
      rewrite decide_False by done. rewrite decide_True by constructor. lia.
    + rewrite IH by done. repeat case_decide; first [lia | exfalso; set_solver].
Qed.

(** The counters of TRIEST-BASE count exactly the triangles of the sample. *)
Definition exact_counts (st : state Z) : Prop :=
  tau st = Z.of_nat (size (triangles (S_edges st))) ∧
  ∀ x, Base.dd_get (tau_vertices st) x =
       Z.of_nat (size (filter (fun tr : list Z => x ∈ tr) (triangles (S_edges st)))).

Lemma counts_insert (S : gset (list Z)) (u v x : Z) :
  (∀ e, e ∈ S → proper_edge e) → u ≠ v → frozenset [u; v] ∉ S →
  Z.of_nat (size (triangles ({[frozenset [u; v]]} ∪ S))) =
    Z.of_nat (size (triangles S)) + Z.of_nat (size (Base.shared_neighborhood S u v)) ∧
  Z.of_nat (size (filter (fun tr : list Z => x ∈ tr) (triangles ({[frozenset [u; v]]} ∪ S)))) =
    Z.of_nat (size (filter (fun tr : list Z => x ∈ tr) (triangles S))) +
    ((if decide (x = u) then Z.of_nat (size (Base.shared_neighborhood S u v)) else 0) +
     (if decide (x = v) then Z.of_nat (size (Base.shared_neighborhood S u v)) else 0) +
     (if decide (x ∈ Base.shared_neighborhood S u v) then 1 else 0)).
Proof.
  intros HS Huv Hnot. destruct (triangles_insert S HS u v Huv Hnot) as [Heq Hdisj].
  rewrite Heq. split.
  - rewrite size_union by done. rewrite (tri_image_size S HS). lia.
  - rewrite filter_union_L, size_union.
    + rewrite <- (tri_image_at S HS) by done. lia.
    + intros tr H1 H2. apply elem_of_filter in H1 as [_ H1], H2 as [_ H2]. exact (Hdisj tr H1 H2).
    + apply _.
Qed.

Lemma base_insert_exact (st r : state Z) (u v : Z) :
  exact_counts st → (∀ e, e ∈ S_edges st → proper_edge e) → u ≠ v →
  frozenset [u; v] = [u; v] → [u; v] ∉ S_edges st →
  Base._update_counters [u; v] true (set_S st ({[[u; v]]} ∪ S_edges st)) = Ok r →
  exact_counts r.
Proof.
  intros [Htau Hx] HS Huv Hfs Hnot. unfold Base._update_counters. cbn [unpack2 rbind].
  intros [= <-]. rewrite <- shared_with_self.
  destruct (base_foldl_counts (elements (Base.shared_neighborhood (S_edges st) u v)) true u v
              (set_S st ({[[u; v]]} ∪ S_edges st))) as [Ht Hy].
  rewrite <- Hfs in Hnot.
  split.
  - rewrite Ht, base_foldl_S. simpl. rewrite <- Hfs.
    destruct (counts_insert (S_edges st) u v 0 HS Huv Hnot) as [-> _]. rewrite Htau. change (length (elements ?X)) with (size X). lia.
  - intros x. rewrite Hy, base_foldl_S. simpl. rewrite <- Hfs.
    destruct (counts_insert (S_edges st) u v x HS Huv Hnot) as [_ ->].
    rewrite Hx, nodup_count by apply NoDup_elements.
    change (length (elements ?X)) with (size X).
    repeat case_decide; rewrite ?elem_of_elements in *; first [lia | done].
Qed.

Lemma base_remove_exact (st r : state Z) (e : list Z) :
  exact_counts st → (∀ e, e ∈ S_edges st → proper_edge e) → e ∈ S_edges st →
  Base._update_counters e false (set_S st (S_edges st ∖ {[e]})) = Ok r →
  exact_counts r.
Proof.
  intros [Htau Hx] HS He.
  destruct (proper_unpack e (HS e He)) as (u & v & -> & Huv & Hfs).
  unfold Base._update_counters. cbn [unpack2 rbind]. intros [= <-].
  set (S' := S_edges st ∖ {[[u; v]]}).
  assert (HS' : ∀ e, e ∈ S' → proper_edge e) by (intros e' He'; apply HS; set_solver).
  assert (Hnot : frozenset [u; v] ∉ S') by (rewrite Hfs; set_solver).
  assert (HSeq : S_edges st = {[frozenset [u; v]]} ∪ S').
  { rewrite Hfs. unfold S'. apply set_eq. intros x. rewrite elem_of_union, elem_of_singleton, elem_of_difference,
      elem_of_singleton. destruct (decide (x = [u; v])) as [->|]; naive_solver. }
  destruct (base_foldl_counts (elements (Base.shared_neighborhood S' u v)) false u v
              (set_S st S')) as [Ht Hy].
  split.
  - rewrite Ht, base_foldl_S. simpl.
    destruct (counts_insert S' u v 0 HS' Huv Hnot) as [Hc _].
    rewrite Htau, HSeq, Hc. change (length (elements ?X)) with (size X). lia.
  - intros x. rewrite Hy, base_foldl_S. simpl.
    destruct (counts_insert S' u v x HS' Huv Hnot) as [_ Hc].
    rewrite Hx, HSeq, Hc, nodup_count by apply NoDup_elements.
    change (length (elements ?X)) with (size X).
    repeat case_decide; rewrite ?elem_of_elements in *; first [lia | done].
Qed.

Lemma base_sample_edge_exact (cfg : config) (ri : Z * nat) (st st' : state Z) (adm : bool) :
  exact_counts st → (∀ e, e ∈ S_edges st → proper_edge e) →
  Base._sample_edge cfg ri st = Ok (adm, st') → exact_counts st'.
Proof.
  intros Hex HS. unfold Base._sample_edge. destruct (Z.leb (t st) (M cfg)); [by intros [= _ <-]|].
  destruct (py_truediv (M cfg) (t st)) as [p|]; cbn [rbind]; [|done].
  destruct (float_ltb (random_value ri.1) p); [|by intros [= _ <-]].
  destruct (py_choice (elements (S_edges st)) ri.2) as [e|] eqn:Hc; cbn [rbind]; [|done].
  destruct (Base._update_counters e false _) as [r|] eqn:Hr; cbn [rbind]; [|done].
  intros [= _ <-]. eapply base_remove_exact; [exact Hex|exact HS| |exact Hr].
  apply elem_of_elements. by eapply py_choice_elem.
Qed.

Definition base_exact_inv (st : state Z) : Prop :=
  (∀ e, e ∈ S_edges st → proper_edge e) ∧ exact_counts st ∧
  ∃ seen, seen_edges st = Some seen ∧ S_edges st ⊆ seen.

Lemma base_run_line_exact (cfg : config) (rnd : Z -> Z * nat) (sc sc' : state Z * Z) (raw : string) :
  skip_duplicates cfg = true →
  base_exact_inv sc.1 → Base.run_line cfg rnd sc raw = Ok sc' → base_exact_inv sc'.1.
Proof.
  destruct sc as [st k]. simpl. intros Hskip (HS & Hex & seen & Hseen & Hsub). unfold Base.run_line.
  destruct (line_edge raw) as [[edge|]|] eqn:He; cbn [rbind];
    [|intros [= <-]; simpl; unfold base_exact_inv; eauto|done].
  apply line_edge_proper in He as Hedge.
  unfold dedup. rewrite Hskip, Hseen. case_bool_decide as Hin; cbn [rbind].
  { intros [= <-]. simpl. unfold base_exact_inv; eauto. }
  destruct (Base.process_edge _ _ _ _) as [r|] eqn:Hp; cbn [rbind]; [|done].
  intros [= <-]. simpl. revert Hp. unfold Base.process_edge.
  destruct (if verbose cfg && _ then _ else _) as [x|]; cbn [rbind]; [|done].
  destruct (Base._sample_edge cfg _ _) as [[adm st2]|] eqn:Hs; cbn [rbind]; [|done].
  pose proof Hs as Hs'. apply base_sample_edge_exact in Hs'; [|exact Hex|exact HS].
  apply base_sample_edge_shape in Hs as (_ & Hseen2 & Hsh). simpl in Hseen2.
  assert (HS2 : S_edges st2 ⊆ S_edges st) by (destruct Hsh as [[-> _]|[_ (e' & _ & ->)]]; set_solver).
  destruct adm.
  - destruct (proper_unpack edge Hedge) as (u & v & -> & Huv & Hfs).
    intros Hr. pose proof Hr as Hr'. apply base_update_counters_frame in Hr' as (HSr & _ & Hseenr).
    split; [|split].
    + rewrite HSr. simpl. intros e. rewrite elem_of_union, elem_of_singleton.
      intros [->|He2]; [done|]. apply HS, HS2, He2.
    + eapply base_insert_exact; [exact Hs'| |exact Huv|exact Hfs| |exact Hr].
      * intros e He2. apply HS, HS2, He2.
      * intros Hin2. apply Hin, Hsub, HS2, Hin2.
    + exists ({[[u; v]]} ∪ seen). rewrite Hseenr, HSr. simpl. rewrite Hseen2. split; [done|]. set_solver.
  - intros [= <-]. split; [|split].
    + intros e He2. apply HS, HS2, He2.
    + exact Hs'.
    + exists ({[edge]} ∪ seen). rewrite Hseen2. split; [done|]. set_solver.
Qed.

Lemma triangles_empty : triangles ∅ = ∅.
Proof.
  apply set_eq. intros tr. rewrite triangles_spec. split; [|set_solver].
  intros (a & b & c & _ & _ & _ & _ & H & _). set_solver.
Qed.

Lemma base_exact_run (file0 : string) (M0 : Z) (verbose0 : bool) (cfg : config) (st0 : state Z)
    (rnd : Z -> Z * nat) (lines : list string) (st : state Z) (k : Z) :
  TriestBase_new file0 M0 verbose0 true = Ok (cfg, st0) →
  run_lines (Base.run_line cfg rnd) (st0, 0) lines = Ok (st, k) →
  exact_counts st.
Proof.
  intros [= <- <-] Hrun.
  assert (Hinv : base_exact_inv (st, k).1).
  { refine (run_lines_preserve (fun sc : state Z * Z => base_exact_inv sc.1) _ _ _ lines _ _ Hrun).
    - intros s s' l Hs Hl. exact (base_run_line_exact (mk_config file0 M0 verbose0 true) rnd s s' l eq_refl Hs Hl).
    - split; [set_solver|]. split; [|exists ∅; split; [done|set_solver]].
      unfold exact_counts. cbn [S_edges tau tau_vertices fst]. rewrite triangles_empty.
      split; [done|]. intros x. rewrite filter_empty_L; [done|apply _]. }
  destruct Hinv as (_ & Hex & _). exact Hex.
Qed.

(** ** Fill phase *)

(** The edge a line contributes to the stream, if any. *)
Definition line_set (raw : string) : gset (list Z) :=
  match line_edge raw with Ok (Some e) => {[e]} | _ => ∅ end.

(** The distinct edges of a stream of lines. *)
Fixpoint stream_edges (lines : list string) : gset (list Z) :=
  match lines with
  | [] => ∅
  | l :: ls => line_set l ∪ stream_edges ls
  end.

Definition fill_inv {C} (Mv : Z) (st : state C) (X : gset (list Z)) : Prop :=
  seen_edges st = Some X ∧ (t st ≤ Mv → S_edges st = X ∧ t st = Z.of_nat (size X)).

Lemma fill_step {C} (cfg : config) (process : state C -> list Z -> result (state C))
    (st : state C) (k : Z) (X : gset (list Z)) (raw : string) (sc' : state C * Z) :
  skip_duplicates cfg = true →
  (∀ s e r, process s e = Ok r →
     seen_edges r = seen_edges s ∧ t r = t s + 1 ∧ (t r ≤ M cfg → S_edges r = {[e]} ∪ S_edges s)) →
  fill_inv (M cfg) st X →
  (let* oe := line_edge raw in
   match oe with
   | None => Ok (st, k)
   | Some edge =>
       let* od := dedup cfg st edge in
       match od with
       | None => Ok (st, k + 1)
       | Some st => let* st' := process st edge in Ok (st', k)
       end
   end) = Ok sc' →
  fill_inv (M cfg) sc'.1 (X ∪ line_set raw).
Proof.
  intros Hskip Hproc [Hseen HX]. unfold line_set.
  destruct (line_edge raw) as [[edge|]|]; cbn [rbind]; [|intros [= <-]; by rewrite union_empty_r_L|done].
  unfold dedup. rewrite Hskip, Hseen. case_bool_decide as Hin; cbn [rbind].
  { intros [= <-]. replace (X ∪ {[edge]}) with X by set_solver. split; done. }
  destruct (process _ edge) as [r|] eqn:Hr; cbn [rbind]; [|done].
  intros [= <-]. simpl. apply Hproc in Hr as (Hs & Ht & HS). simpl in Hs, Ht, HS.
  split; [rewrite Hs; f_equal; set_solver|].
  intros Hle. destruct HX as [HSX HtX]; [lia|]. rewrite HS by done. split; [rewrite HSX; set_solver|].
  rewrite Ht, HtX. replace (X ∪ {[edge]}) with ({[edge]} ∪ X) by set_solver.
  rewrite size_union by set_solver. rewrite size_singleton. lia.
Qed.

Lemma fill_lines {C} (Mv : Z) (step : state C * Z -> string -> result (state C * Z)) :
  (∀ st k X raw sc', fill_inv Mv st X → step (st, k) raw = Ok sc' → fill_inv Mv sc'.1 (X ∪ line_set raw)) →
  ∀ lines st k X sc', fill_inv Mv st X → run_lines step (st, k) lines = Ok sc' →
  fill_inv Mv sc'.1 (X ∪ stream_edges lines).
Proof.
  intros Hstep lines. induction lines as [|l ls IH]; intros st k X sc' Hinv; simpl.
  - intros [= <-]. by rewrite union_empty_r_L.
  - destruct (step (st, k) l) as [[st1 k1]|] eqn:H1; cbn [rbind]; [|done].
    intros Hrun. apply (Hstep st k X) in H1; [|done]. rewrite union_assoc_L. exact (IH _ _ _ _ H1 Hrun).
Qed.

Lemma base_process_fill (cfg : config) (rnd : Z -> Z * nat) (s : state Z) (e : list Z) (r : state Z) :
  Base.process_edge cfg rnd s e = Ok r →
  seen_edges r = seen_edges s ∧ t r = t s + 1 ∧ (t r ≤ M cfg → S_edges r = {[e]} ∪ S_edges s).
Proof.
  intros Hp. pose proof (base_process_edge_seen _ _ _ _ _ Hp) as Hs. split; [done|].
  revert Hp. unfold Base.process_edge.
  destruct (if verbose cfg && _ then _ else _) as [x|]; cbn [rbind]; [|done].
  destruct (Base._sample_edge cfg _ _) as [[adm st2]|] eqn:Hsm; cbn [rbind]; [|done].
  pose proof Hsm as Hsh. apply base_sample_edge_shape in Hsh as (Ht2 & _ & _). simpl in Ht2.
  unfold Base._sample_edge in Hsm. cbn [t set_t] in Hsm.
  destruct adm.
  - intros Hr. apply base_update_counters_frame in Hr as (HSr & Htr & _).
    rewrite HSr, Htr. simpl. rewrite Ht2. split; [done|]. intros Hle.
    apply Z.leb_le in Hle. rewrite Hle in Hsm. injection Hsm as <-. done.
  - intros [= <-]. rewrite Ht2. split; [done|]. intros Hle.
    apply Z.leb_le in Hle. rewrite Hle in Hsm. discriminate Hsm.
Qed.

Lemma impr_process_fill (cfg : config) (rnd : Z -> Z * nat) (s : state pyfloat) (e : list Z) (r : state pyfloat) :
  Impr.process_edge cfg rnd s e = Ok r →
  seen_edges r = seen_edges s ∧ t r = t s + 1 ∧ (t r ≤ M cfg → S_edges r = {[e]} ∪ S_edges s).
Proof.
  intros Hp. pose proof (impr_process_edge_seen _ _ _ _ _ Hp) as Hs. split; [done|].
  revert Hp. unfold Impr.process_edge.
  destruct (Impr._update_counters cfg e true _) as [st1|] eqn:Hu; cbn [rbind]; [|done].
  apply impr_update_counters_frame in Hu as (HS1 & Ht1 & _). simpl in Ht1.
  destruct (Impr._sample_edge cfg _ _) as [[adm st2]|] eqn:Hsm; cbn [rbind]; [|done].
  pose proof Hsm as Hsh. apply impr_sample_edge_shape in Hsh as [(Ht2 & _ & _) _].
  unfold Impr._sample_edge in Hsm.
  destruct adm.
  - intros [= <-]. simpl. rewrite Ht2, Ht1. split; [done|]. intros Hle.
    rewrite Ht1 in Hsm. apply Z.leb_le in Hle. rewrite Hle in Hsm. injection Hsm as <-.
    rewrite HS1. done.
  - intros [= <-]. rewrite Ht2, Ht1. split; [done|]. intros Hle.
    rewrite Ht1 in Hsm. apply Z.leb_le in Hle. rewrite Hle in Hsm. discriminate Hsm.
Qed.

Lemma base_fill_run (file0 : string) (M0 : Z) (verbose0 : bool) (cfg : config) (st0 : state Z)
    (rnd : Z -> Z * nat) (lines : list string) (st : state Z) (k : Z) :
  TriestBase_new file0 M0 verbose0 true = Ok (cfg, st0) →
  run_lines (Base.run_line cfg rnd) (st0, 0) lines = Ok (st, k) →
  fill_inv M0 st (stream_edges lines).
Proof.
  intros [= <- <-] Hrun. rewrite <- (union_empty_l_L (stream_edges lines)).
  refine (fill_lines M0 _ _ lines _ 0 ∅ (st, k) _ Hrun).
  - intros s k0 X raw sc' Hinv Hl.
    exact (fill_step (mk_config file0 M0 verbose0 true) (Base.process_edge (mk_config file0 M0 verbose0 true) rnd)
             s k0 X raw sc' eq_refl (base_process_fill _ rnd) Hinv Hl).
  - split; [done|]. intros _. rewrite size_empty. done.
Qed.

Lemma impr_fill_run (file0 : string) (M0 : Z) (verbose0 : bool) (cfg : config) (st0 : state pyfloat)
    (rnd : Z -> Z * nat) (lines : list string) (st : state pyfloat) (k : Z) :
  TriestImpr_new file0 M0 verbose0 true = Ok (cfg, st0) →
  run_lines (Impr.run_line cfg rnd) (st0, 0) lines = Ok (st, k) →
  fill_inv M0 st (stream_edges lines).
Proof.
  intros [= <- <-] Hrun. rewrite <- (union_empty_l_L (stream_edges lines)).
  refine (fill_lines M0 _ _ lines _ 0 ∅ (st, k) _ Hrun).
  - intros s k0 X raw sc' Hinv Hl.
    exact (fill_step (mk_config file0 M0 verbose0 true) (Impr.process_edge (mk_config file0 M0 verbose0 true) rnd)
             s k0 X raw sc' eq_refl (impr_process_fill _ rnd) Hinv Hl).
  - split; [done|]. intros _. rewrite size_empty. done.
Qed.

Lemma round_pos_scale (n q : Z) : 0 ≤ n → 0 < q → round_pos (n * q) q = round_pos n 1.
Proof.
  intros Hn Hq. unfold round_pos. rewrite Z.div_mul by lia. rewrite Z.div_1_r.
  set (k := Z.max 0 (Z.log2 n - 52)). f_equal. rewrite Z.mul_1_l.
  assert (Hk : 0 < 2 ^ k) by (apply Z.pow_pos_nonneg; lia).
  unfold rne. rewrite (Z.mul_comm n q), Z.div_mul_cancel_l, Z.mul_mod_distr_l by lia.
  rewrite Z.mul_assoc, (Z.mul_comm 2 q), <- Z.mul_assoc, <- Zmult_compare_compat_l by lia. done.
Qed.

Lemma float_mul_one (a : Z) (y : pyfloat) : py_float_of_int a = Ok y → float_mul one y = y.
Proof.
  unfold py_float_of_int. set (n := round_pos (Z.abs a * 2 ^ units_exp) 1).
  assert (Hn : 0 ≤ n) by (apply round_pos_nonneg; [apply Z.mul_nonneg_nonneg; [lia|apply Z.pow_nonneg; unfold units_exp; lia]|lia]).
  destruct (Z.leb_spec overflow_units n) as [|Hov]; [done|]. intros [= <-].
  unfold float_mul, one.
  assert (Hq : 0 < 2 ^ units_exp) by (apply Z.pow_pos_nonneg; unfold units_exp; lia).
  assert (Habs : Z.abs (2 ^ units_exp * (Z.sgn a * n)) = n * 2 ^ units_exp ∨ a = 0).
  { destruct (Z.sgn_spec a) as [[? ->]|[[-> ->]|[? ->]]]; [left; lia|by right|left; lia]. }
  destruct Habs as [Habs | ->].
  - assert (Hid : round_pos n 1 = n).
    { unfold n. apply round_pos_idem. apply Z.mul_nonneg_nonneg; lia. }
    rewrite Habs, round_pos_scale, Hid by lia.
    destruct (Z.leb_spec overflow_units n); [lia|]. f_equal.
    destruct (Z.eq_dec n 0) as [Hn0|Hn0]; [rewrite Hn0; lia|].
    rewrite !Z.sgn_mul, (Z.sgn_pos (2 ^ units_exp)), (Z.sgn_pos n) by lia.
    destruct (Z.sgn_spec a) as [[? ->]|[[? ->]|[? ->]]]; simpl; lia.
  - simpl Z.sgn. rewrite Z.mul_0_l, Z.mul_0_r. simpl Z.abs. rewrite round_pos_zero by lia.
    destruct (Z.leb_spec overflow_units 0); [unfold overflow_units in *; lia|]. done.
Qed.

(** ** The counters of [TriestBase] (Asiignment3) *)

Lemma apply_at_get (op : Z -> Z -> Z) (s : Z) (m : gmap Z Z) (k y : Z) :
  (∀ x, op x 1 = x + s) →
  Base.dd_get (A3Base.apply_at op m k) y = Base.dd_get m y + (if decide (y = k) then s else 0).
Proof.
  intros Hop. unfold A3Base.apply_at. unfold Base.dd_get at 1. case_decide as Hyk.
  - subst. rewrite lookup_insert_eq. simpl. rewrite Hop. done.
  - rewrite lookup_insert_ne by congruence. unfold Base.dd_get. lia.
Qed.

Lemma a3b_foldl_counts (op : Z -> Z -> Z) (s : Z) (l : list Z) (u v : Z) (st : state Z) :
  (∀ x, op x 1 = x + s) →
  let r := foldl (A3Base.update_one op [u; v]) st l in
  S_edges r = S_edges st ∧ t r = t st ∧ seen_edges r = seen_edges st ∧
  tau r = tau st + s * Z.of_nat (length l) ∧
  ∀ y, Base.dd_get (tau_vertices r) y = Base.dd_get (tau_vertices st) y +
    s * ((if decide (y = u) then Z.of_nat (length l) else 0) +
         (if decide (y = v) then Z.of_nat (length l) else 0) +
         Z.of_nat (length (filter (fun c => c = y) l))).
Proof.
  intros Hop. revert st. induction l as [|c l IH]; intros st; simpl.
  - split_and!; try done; [lia|]. intros y. repeat case_decide; lia.
  - destruct (IH (A3Base.update_one op [u; v] st c)) as (-> & -> & -> & Ht & Hy). simpl.
    split_and!; try done.
    + rewrite Ht. unfold A3Base.update_one. simpl. rewrite Hop. lia.
    + intros y. rewrite Hy, filter_cons. unfold A3Base.update_one. simpl.
      rewrite !(apply_at_get op s) by done. repeat case_decide; simpl; lia.
Qed.

Lemma a3b_update_counters_pair (op : Z -> Z -> Z) (u v : Z) (st : state Z) :
  A3Base._update_counters op [u; v] st =
  Ok (foldl (A3Base.update_one op [u; v]) st (elements (Base.shared_neighborhood (S_edges st) u v))).
Proof. done. Qed.

Lemma a3b_insert_exact (st r : state Z) (u v : Z) :
  exact_counts st → (∀ e, e ∈ S_edges st → proper_edge e) → u ≠ v →
  frozenset [u; v] = [u; v] → [u; v] ∉ S_edges st →
  A3Base._update_counters Z.add [u; v] st = Ok r →
  exact_counts (set_S r ({[[u; v]]} ∪ S_edges r)).
Proof.
  intros [Htau Hx] HS Huv Hfs Hnot. rewrite a3b_update_counters_pair. intros [= <-].
  destruct (a3b_foldl_counts Z.add 1 (elements (Base.shared_neighborhood (S_edges st) u v)) u v st
              ltac:(done)) as (HS' & _ & _ & Ht & Hy).
  rewrite <- Hfs in Hnot. unfold exact_counts. cbn [S_edges tau tau_vertices set_S]. rewrite HS'.
  split.
  - rewrite Ht. destruct (counts_insert (S_edges st) u v 0 HS Huv Hnot) as [Hc _]. rewrite Hfs in Hc.
    rewrite Hc, Htau. change (length (elements ?X)) with (size X). lia.
  - intros x. rewrite Hy. destruct (counts_insert (S_edges st) u v x HS Huv Hnot) as [_ Hc].
    rewrite Hfs in Hc. rewrite Hc.
    rewrite Hx, nodup_count by apply NoDup_elements.
    change (length (elements ?X)) with (size X).
    repeat case_decide; rewrite ?elem_of_elements in *; first [lia | done].
Qed.

Lemma a3b_remove_exact (st r : state Z) (e : list Z) :
  exact_counts st → (∀ e, e ∈ S_edges st → proper_edge e) → e ∈ S_edges st →
  A3Base._update_counters Z.sub e (set_S st (S_edges st ∖ {[e]})) = Ok r →
  exact_counts r.
Proof.
  intros [Htau Hx] HS He.
  destruct (proper_unpack e (HS e He)) as (u & v & -> & Huv & Hfs).
  rewrite a3b_update_counters_pair. intros [= <-]. cbn [S_edges set_S].
  set (S' := S_edges st ∖ {[[u; v]]}).
  assert (HS' : ∀ e, e ∈ S' → proper_edge e) by (intros e' He'; apply HS; set_solver).
  assert (Hnot : frozenset [u; v] ∉ S') by (rewrite Hfs; set_solver).
  assert (HSeq : S_edges st = {[frozenset [u; v]]} ∪ S').
  { rewrite Hfs. unfold S'. apply set_eq. intros x. rewrite elem_of_union, elem_of_singleton, elem_of_difference,
      elem_of_singleton. destruct (decide (x = [u; v])) as [->|]; naive_solver. }
  destruct (a3b_foldl_counts Z.sub (-1) (elements (Base.shared_neighborhood S' u v)) u v
              (set_S st S') ltac:(intros; lia)) as (HS2 & _ & _ & Ht & Hy).
  unfold exact_counts. rewrite HS2. cbn [S_edges tau tau_vertices set_S] in *.
  split.
  - rewrite Ht. destruct (counts_insert S' u v 0 HS' Huv Hnot) as [Hc _].
    rewrite Htau, HSeq, Hc. change (length (elements ?X)) with (size X). lia.
  - intros x. rewrite Hy.
    destruct (counts_insert S' u v x HS' Huv Hnot) as [_ Hc].
    rewrite Hx, HSeq, Hc, nodup_count by apply NoDup_elements.
    change (length (elements ?X)) with (size X).
    repeat case_decide; rewrite ?elem_of_elements in *; first [lia | done].
Qed.

Lemma a3b_sample_edge_exact (cfg : config) (bi : bool * nat) (t0 : Z) (st st' : state Z) (adm : bool) :
  exact_counts st → (∀ e, e ∈ S_edges st → proper_edge e) →
  A3Base._sample_edge cfg bi t0 st = Ok (adm, st') →
  exact_counts st' ∧ S_edges st' ⊆ S_edges st ∧ t st' = t st.
Proof.
  intros Hex HS. unfold A3Base._sample_edge. destruct (Z.leb t0 (M cfg)); [intros [= _ <-]; set_solver|].
  destruct (py_truediv (M cfg) t0) as [p|]; cbn [rbind]; [|done].
  destruct (A3.bernoulli_rvs p bi.1) as [[|]|]; cbn [rbind]; [|intros [= _ <-]; set_solver|done].
  destruct (py_choice (elements (S_edges st)) bi.2) as [e|] eqn:Hc; cbn [rbind]; [|done].
  apply py_choice_elem, elem_of_elements in Hc.
  destruct (proper_unpack e (HS e Hc)) as (u & v & -> & _ & _).
  destruct (A3Base._update_counters Z.sub [u; v] _) as [r|] eqn:Hr; cbn [rbind]; [|done].
  intros [= _ <-]. pose proof Hr as Hr'. rewrite a3b_update_counters_pair in Hr'. injection Hr' as <-.
  destruct (a3b_foldl_counts Z.sub (-1) (elements (Base.shared_neighborhood (S_edges st ∖ {[[u; v]]}) u v)) u v
              (set_S st (S_edges st ∖ {[[u; v]]})) ltac:(intros; lia)) as (HS2 & Ht2 & _).
  split_and!.
  - eapply a3b_remove_exact; [exact Hex|exact HS|exact Hc|]. rewrite a3b_update_counters_pair. done.
  - rewrite HS2. simpl. set_solver.
  - rewrite Ht2. done.
Qed.

Lemma a3b_run_line_exact (cfg : config) (rnd : Z -> bool * nat) (st st' : state Z) (line : string) (e : list Z) :
  exact_counts st → (∀ e, e ∈ S_edges st → proper_edge e) →
  A3._get_edge (list_ascii_of_string line) = Ok e → proper_edge e → e ∉ S_edges st →
  A3Base.run_line cfg rnd st line = Ok st' →
  exact_counts st' ∧ (∀ e, e ∈ S_edges st' → proper_edge e) ∧ S_edges st' ⊆ {[e]} ∪ S_edges st.
Proof.
  intros Hex HS Hg He Hnot. unfold A3Base.run_line. rewrite Hg. cbn [rbind].
  destruct (A3Base._sample_edge _ _ _ _) as [[adm st2]|] eqn:Hs; cbn [rbind]; [|done].
  apply a3b_sample_edge_exact in Hs as (Hex2 & HS2 & _); [|exact Hex|exact HS].
  cbn [S_edges set_t] in HS2.
  assert (Hmid : ∀ st3, (if adm then let* st := A3Base._update_counters Z.add e st2 in
                                      Ok (set_S st ({[e]} ∪ S_edges st)) else Ok st2) = Ok st3 →
            exact_counts st3 ∧ (∀ e, e ∈ S_edges st3 → proper_edge e) ∧ S_edges st3 ⊆ {[e]} ∪ S_edges st).
  { intros st3. destruct adm.
    - destruct (proper_unpack e He) as (u & v & -> & Huv & Hfs).
      destruct (A3Base._update_counters Z.add [u; v] st2) as [r|] eqn:Hr; cbn [rbind]; [|done].
      intros [= <-]. pose proof Hr as Hr'. rewrite a3b_update_counters_pair in Hr'. injection Hr' as Hr'.
      destruct (a3b_foldl_counts Z.add 1 (elements (Base.shared_neighborhood (S_edges st2) u v)) u v st2
                  ltac:(done)) as (HSr & _). rewrite Hr' in HSr.
      split_and!.
      + eapply a3b_insert_exact; [exact Hex2| |exact Huv|exact Hfs| |exact Hr].
        * intros e' He'. apply HS, HS2, He'.
        * intros Hin. apply Hnot, HS2, Hin.
      + cbn [S_edges set_S]. rewrite HSr. intros e'. rewrite elem_of_union, elem_of_singleton.
        intros [->|He']; [done|]. apply HS, HS2, He'.
      + cbn [S_edges set_S]. rewrite HSr. set_solver.
    - intros [= <-]. split_and!; [done| |set_solver]. intros e' He'. apply HS, HS2, He'. }
  destruct (if adm then _ else _) as [st3|] eqn:Hm; cbn [rbind]; [|done].
  specialize (Hmid st3 eq_refl).
  destruct (verbose cfg && _); [|by intros [= <-]].
  destruct (A3Base.xi cfg st3); cbn [rbind]; [|done].
  destruct (py_float_of_int (tau st3)); cbn [rbind]; [|done]. by intros [= <-].
Qed.

Lemma a3b_run_lines_exact (cfg : config) (rnd : Z -> bool * nat) (lines : list string) (es : list (list Z)) :
  Forall2 (fun line e => A3._get_edge (list_ascii_of_string line) = Ok e ∧ proper_edge e) lines es →
  NoDup es →
  ∀ st st', exact_counts st → (∀ e, e ∈ S_edges st → proper_edge e ∧ e ∉ es) →
  run_lines (A3Base.run_line cfg rnd) st lines = Ok st' → exact_counts st'.
Proof.
  induction 1 as [|line e lines es [Hg He] Hall IH]; intros Hnd st st' Hex HS; simpl.
  - by intros [= <-].
  - apply NoDup_cons in Hnd as [Hnin Hnd].
    destruct (A3Base.run_line cfg rnd st line) as [st1|] eqn:H1; cbn [rbind]; [|done].
    apply a3b_run_line_exact with (e := e) in H1 as (Hex1 & HS1 & Hsub1);
      [|exact Hex|intros e' He'; apply HS, He'|exact Hg|exact He|intros Hin; apply (HS e Hin); constructor].
    apply IH; [done|exact Hex1|]. intros e' He'. split; [by apply HS1|].
    apply Hsub1 in He'. apply elem_of_union in He' as [He'|He'].
    + apply elem_of_singleton in He' as ->. done.
    + intros Hin. apply (HS e' He'). by constructor.
Qed.

Lemma base_xi_fill (cfg : config) (st : state Z) : t st ≤ M cfg → Base.xi cfg st = Ok one.
Proof. intros Hle. unfold Base.xi, xi_base. apply Z.leb_le in Hle. rewrite Hle. done. Qed.

Lemma float_of_int_mul_one (a : Z) :
  (let* y := py_float_of_int a in Ok (float_mul one y)) = py_float_of_int a.
Proof.
  destruct (py_float_of_int a) as [y|] eqn:Hy; cbn [rbind]; [|done].
  rewrite (float_mul_one a y Hy). done.
Qed.

Lemma proper_edge_pair (a b : Z) : a ≠ b → proper_edge (frozenset [a; b]).
Proof. intros Hab. exists a, b. done. Qed.

Lemma cubic_mono (x y : Z) : 0 ≤ x → x ≤ y → 3 ≤ y → x * (x - 1) * (x - 2) ≤ y * (y - 1) * (y - 2).
Proof.
  intros Hx Hxy Hy. destruct (Z.le_gt_cases 2 x) as [H2|H2].
  - apply Z.mul_le_mono_nonneg;
      [apply Z.mul_nonneg_nonneg; lia | apply Z.mul_le_mono_nonneg; lia | lia | lia].
  - assert (x * (x - 1) * (x - 2) = 0) as -> by (assert (x = 0 ∨ x = 1) as [-> | ->] by lia; done).
    apply Z.mul_nonneg_nonneg; [apply Z.mul_nonneg_nonneg|]; lia.
Qed.

(* ------------------------------------------------------------------ *)
(** ** Concrete inputs used by the witnesses *)

Definition sample_stream : list string :=
  ["# comment"; "1 2"; "2 3"; "3 1"; "1 4"; "4 2"; "5 5"; "2 1"; "3 4"; "x"]%string.

(** Random draws: [random.random()] returns 0.0 and [random.choice] takes
    the first element, so every decision after the fill admits. *)
Definition rnd_zero (t0 : Z) : Z * nat := (0, 0%nat).

(** The complete graph on [1..4], one edge per line. *)
Definition k4_lines : list string := ["1 2"; "2 3"; "3 1"; "1 4"; "4 2"; "3 4"]%string.

(** [bernoulli.rvs] returns 1 whenever its [p] is in (0, 1) and
    [random.choice] takes the first element. *)
Definition rnd_evict (t0 : Z) : bool * nat := (true, 0%nat).

(* ------------------------------------------------------------------ *)
(** A sample holding the wedge 1-2-3, as after the lines ["1 2"; "2 3"]. *)
Definition wedge_state : state pyfloat := mk_state {[[1; 2]; [2; 3]]} 2 (Fin 0) ∅ None.

(** ** Claims *)

(** C10: for an edge [{u, v}] (the list [[u; v]] that [tuple(edge)]
    unpacks) and any sample [S], the shared neighbourhood computed by
    [_update_counters] is the same whether or not the edge itself is in
    [S]; hence both [_update_counters] of HW3 give the same counters when
    the edge is removed from, or inserted into, [S] first. *)
Theorem shared_neighbourhood_ignores_own_edge (S : gset (list Z)) (u v : Z) :
  Base.shared_neighborhood S u v = Base.shared_neighborhood (S ∖ {[[u; v]]}) u v ∧
  Base.shared_neighborhood S u v = Base.shared_neighborhood ({[[u; v]]} ∪ S) u v ∧
  (∀ (inc : bool) (st : state Z), S_edges st = S →
     Base._update_counters [u; v] inc (set_S st (S ∖ {[[u; v]]})) =
       rmap (fun r => set_S r (S ∖ {[[u; v]]})) (Base._update_counters [u; v] inc st) ∧
     Base._update_counters [u; v] inc (set_S st ({[[u; v]]} ∪ S)) =
       rmap (fun r => set_S r ({[[u; v]]} ∪ S)) (Base._update_counters [u; v] inc st)) ∧
  (∀ (cfg : config) (inc : bool) (st : state pyfloat), S_edges st = S →
     Impr._update_counters cfg [u; v] inc (set_S st (S ∖ {[[u; v]]})) =
       rmap (fun r => set_S r (S ∖ {[[u; v]]})) (Impr._update_counters cfg [u; v] inc st) ∧
     Impr._update_counters cfg [u; v] inc (set_S st ({[[u; v]]} ∪ S)) =
       rmap (fun r => set_S r ({[[u; v]]} ∪ S)) (Impr._update_counters cfg [u; v] inc st)).
Proof.
  split; [apply shared_without_self|]. split; [apply shared_with_self|]. split.
  - intros inc st <-. split; apply base_update_counters_set_S; intros u' v' [= <- <-].
    + symmetry. apply shared_without_self.
    + symmetry. apply shared_with_self.
  - intros cfg inc st <-. split; apply impr_update_counters_set_S; intros u' v' [= <- <-].
    + symmetry. apply shared_without_self.
    + symmetry. apply shared_with_self.
Qed.

(** C2: in TRIEST-BASE the code removes the evicted edge before
    subtracting its contribution, and inserts an admitted edge before
    adding its contribution; over any stream and any random outcomes this
    gives exactly the states (sample, counters, per-vertex map, errors)
    of the order the spec prescribes: subtract the evicted edge's
    contribution against [S] before removing it, add the new edge's
    contribution against [S] before inserting it. *)
Theorem base_run_follows_spec_order (cfg : config) (rnd : Z -> Z * nat) (sc : state Z * Z)
    (lines : list string) :
  run_lines (Base.run_line cfg rnd) sc lines = run_lines (SpecOrder.spec_run_line cfg rnd) sc lines.
Proof. apply run_lines_ext. apply base_run_line_spec_order. Qed.

(** C1: for every stream, every outcome of the random draws and every
    prefix of the run (a prefix is itself a stream), the sample [S] of
    [TriestBase] and of [TriestImpr] (HW3) holds at most [M] edges, each
    the frozenset of two distinct vertices, with no unordered pair twice. *)
Theorem reservoir_bound (file0 : string) (M0 : Z) (verbose0 skip0 : bool) (rnd : Z -> Z * nat)
    (lines : list string) :
  0 ≤ M0 →
  (∀ cfg st0 st k, TriestBase_new file0 M0 verbose0 skip0 = Ok (cfg, st0) →
     run_lines (Base.run_line cfg rnd) (st0, 0) lines = Ok (st, k) → sample_ok M0 st) ∧
  (∀ cfg st0 st k, TriestImpr_new file0 M0 verbose0 skip0 = Ok (cfg, st0) →
     run_lines (Impr.run_line cfg rnd) (st0, 0) lines = Ok (st, k) → sample_ok M0 st).
Proof.
  intros HM. split.
  - intros cfg st0 st k [= <- <-] Hrun. apply sample_inv_ok.
    change (sample_inv (M (mk_config file0 M0 verbose0 skip0)) (st, k).1).
    eapply (run_lines_preserve (fun sc => sample_inv _ sc.1)); [| |exact Hrun].
    + intros s s' l. apply base_run_line_inv.
    + apply sample_inv_init. exact HM.
  - intros cfg st0 st k [= <- <-] Hrun. apply sample_inv_ok.
    change (sample_inv (M (mk_config file0 M0 verbose0 skip0)) (st, k).1).
    eapply (run_lines_preserve (fun sc => sample_inv _ sc.1)); [| |exact Hrun].
    + intros s s' l. apply impr_run_line_inv.
    + apply sample_inv_init. exact HM.
Qed.

Lemma reservoir_bound_witness :
  0 ≤ 3 ∧
  match run_lines (Base.run_line (mk_config "g.txt" 3 true true) rnd_zero)
          (mk_state ∅ 0 0 ∅ (Some ∅), 0) sample_stream with
  | Ok (st, _) => sample_ok 3 st
  | Err _ => False
  end.
Proof.
  split; [lia|].
  destruct (reservoir_bound "g.txt" 3 true true rnd_zero sample_stream ltac:(lia)) as [Hb _].
  destruct (run_lines _ _ _) as [[st k]|e] eqn:E.
  - exact (Hb _ _ st k eq_refl E).
  - vm_compute in E. discriminate E.
Defined.

(** C9: with [skip_duplicates] true, once a line has been processed
    (without an exception), processing right after it a line that yields
    the same edge leaves the whole state ([t], [S], [tau], the per-vertex
    map and the seen set) as it was after the first line; only the
    skipped-line count may change. This holds for [TriestBase] and
    [TriestImpr] (HW3), from every state. *)
Theorem duplicate_edge_idempotent (cfg : config) (rnd : Z -> Z * nat) (l1 l2 : string) :
  skip_duplicates cfg = true → line_edge l2 = line_edge l1 →
  (∀ st k st1 k1, Base.run_line cfg rnd (st, k) l1 = Ok (st1, k1) →
     ∃ k2, Base.run_line cfg rnd (st1, k1) l2 = Ok (st1, k2)) ∧
  (∀ st k st1 k1, Impr.run_line cfg rnd (st, k) l1 = Ok (st1, k1) →
     ∃ k2, Impr.run_line cfg rnd (st1, k1) l2 = Ok (st1, k2)).
Proof.
  intros Hskip Hl. split; intros st k st1 k1 H1.
  - unfold Base.run_line in *. rewrite Hl.
    exact (dedup_twice cfg (Base.process_edge cfg rnd) st st1 k k1 (line_edge l1) Hskip
             (fun s e r => base_process_edge_seen cfg rnd s r e) H1).
  - unfold Impr.run_line in *. rewrite Hl.
    exact (dedup_twice cfg (Impr.process_edge cfg rnd) st st1 k k1 (line_edge l1) Hskip
             (fun s e r => impr_process_edge_seen cfg rnd s r e) H1).
Qed.

Lemma duplicate_edge_idempotent_witness :
  skip_duplicates (mk_config "g.txt" 3 true true) = true ∧
  line_edge "2 1" = line_edge "1 2" ∧
  match Base.run_line (mk_config "g.txt" 3 true true) rnd_zero (mk_state ∅ 0 0 ∅ (Some ∅), 0) "1 2" with
  | Ok (st1, k1) => ∃ k2, Base.run_line (mk_config "g.txt" 3 true true) rnd_zero (st1, k1) "2 1" = Ok (st1, k2)
  | Err _ => False
  end.
Proof.
  split; [reflexivity|]. split; [vm_compute; reflexivity|].
  destruct (duplicate_edge_idempotent (mk_config "g.txt" 3 true true) rnd_zero "1 2" "2 1"
              eq_refl ltac:(vm_compute; reflexivity)) as [Hb _].
  destruct (Base.run_line _ _ _ _) as [[st1 k1]|e] eqn:E.
  - exact (Hb _ _ st1 k1 E).
  - vm_compute in E. discriminate E.
Defined.

(** C7 (counterexample): constructing any of the three estimators with
    [M = 2] succeeds, and the resulting [TriestImpr] and
    [TriestImproved] objects run a whole stream to an estimate. *)
Lemma small_memory_accepted :
  (∃ cfg st0, TriestBase_new "g.txt" 2 true true = Ok (cfg, st0)) ∧
  match TriestImpr_new "g.txt" 2 true true with
  | Ok (cfg, st0) =>
      match Impr.run cfg rnd_zero st0 sample_stream with Ok _ => True | Err _ => False end
  | Err _ => False
  end ∧
  match TriestImproved_new "g.txt" 2 true with
  | Ok (cfg, st0) =>
      match A3.run cfg (fun _ => (true, 0%nat)) st0 ["1 2"; "2 3"; "3 1"; "1 4"]%string with
      | Ok _ => True
      | Err _ => False
      end
  | Err _ => False
  end.
Proof.
  split; [do 2 eexists; reflexivity|]. split; vm_compute; exact I.
Qed.

(** C7 (amended): the constructors check nothing: for every [M],
    including [M < 3], [TriestBase], [TriestImpr] and [TriestImproved]
    return an estimator with an empty sample, [t = 0] and zero counters;
    the variant is fixed by the class, there is no variant argument. *)
Theorem constructors_accept_any_M (file0 : string) (M0 : Z) (verbose0 skip0 : bool) :
  TriestBase_new file0 M0 verbose0 skip0 =
    Ok (mk_config file0 M0 verbose0 skip0, mk_state ∅ 0 0 ∅ (if skip0 then Some ∅ else None)) ∧
  TriestImpr_new file0 M0 verbose0 skip0 =
    Ok (mk_config file0 M0 verbose0 skip0, mk_state ∅ 0 (Fin 0) ∅ (if skip0 then Some ∅ else None)) ∧
  TriestImproved_new file0 M0 verbose0 =
    Ok (mk_config file0 M0 verbose0 false, mk_state ∅ 0 (Fin 0) ∅ None).
Proof. repeat split. Qed.




(** C8: the improved variant of Asiignment3 does not reject self-loops:
    on the stream ["5 6"; "5 5"] with [M = 3], [TriestImproved] admits
    the frozenset [{5}] into [S], counts the line in [t] (which becomes 2)
    and adds 1.0 to [tau] ([{5}] and [{5, 6}] share the neighbour 6). The
    HW3 classes do skip the line ["5 5"] without any effect. *)
Theorem self_loop_admitted_in_a3 :
  match TriestImproved_new "g.txt" 3 true with
  | Ok (cfg, st0) =>
      match A3.run cfg (fun _ => (true, 0%nat)) st0 ["5 6"; "5 5"]%string with
      | Ok (st, _) => [5] ∈ S_edges st ∧ t st = 2 ∧ tau st = one
      | Err _ => False
      end
  | Err _ => False
  end ∧
  (∀ cfg rnd sc sc' rest,
     run_lines (Base.run_line cfg rnd) sc ("5 5" :: rest)%string = run_lines (Base.run_line cfg rnd) sc rest ∧
     run_lines (Impr.run_line cfg rnd) sc' ("5 5" :: rest)%string = run_lines (Impr.run_line cfg rnd) sc' rest).
Proof.
  split.
  - vm_compute. split; [|split]; reflexivity.
  - intros cfg rnd sc sc' rest.
    assert (H : line_edge "5 5" = Ok None) by (vm_compute; reflexivity).
    split; [apply base_run_lines_skip|apply impr_run_lines_skip]; exact H.
Qed.

(** C3: in [TriestImpr] (HW3), processing an accepted edge [{u, v}]
    after [t] has been incremented adds its contribution, computed
    against the sample [S] as it was before any sampling decision, to
    [tau] and to the per-vertex counters of [u], [v] and each shared
    neighbour [c], with weight [xi_impr M (t + 1)] (the code's [eta(t)]).
    Only then is the reservoir decision taken, and whatever it is
    (admission, eviction or rejection) the counters stay as updated. The
    loop body of [TriestImproved] (Asiignment3) likewise runs
    [_update_counters] at [t + 1] against the current [S] before
    [_sample_edge], and keeps its counters for every outcome. *)
Theorem impr_counts_every_edge (cfg : config) :
  (∀ (rnd : Z -> Z * nat) (st r : state pyfloat) (u v : Z),
    Impr.process_edge cfg rnd st [u; v] = Ok r →
    ∃ w, xi_impr (M cfg) (t st + 1) = Ok w ∧
      let st1 := foldl (Impr.update_one w u v) (set_t st (t st + 1))
                   (elements (Base.shared_neighborhood (S_edges st) u v)) in
      tau r = tau st1 ∧ tau_vertices r = tau_vertices st1 ∧ t r = t st + 1 ∧
      ∃ adm st2, Impr._sample_edge cfg (rnd (t st + 1)) st1 = Ok (adm, st2) ∧
        r = (if adm then set_S st2 ({[[u; v]]} ∪ S_edges st2) else st2)) ∧
  (∀ (rnd : Z -> bool * nat) (st r : state pyfloat) (line : string) (edge : list Z),
    A3._get_edge (list_ascii_of_string line) = Ok edge →
    A3.run_line cfg rnd st line = Ok r →
    ∃ st1, A3._update_counters cfg edge (set_t st (t st + 1)) = Ok st1 ∧
      tau r = tau st1 ∧ tau_vertices r = tau_vertices st1 ∧ t r = t st + 1 ∧
      ∃ adm st2, A3._sample_edge cfg (rnd (t st + 1)) st1 = Ok (adm, st2) ∧
        r = (if adm then set_S st2 ({[edge]} ∪ S_edges st2) else st2)).
Proof. split; [apply impr_process_edge_counts|apply a3_run_line_counts]. Qed.

Lemma impr_counts_every_edge_witness :
  match Impr.process_edge (mk_config "g.txt" 3 true false) rnd_zero wedge_state [3; 1] with
  | Ok r =>
      ∃ w, xi_impr 3 (t wedge_state + 1) = Ok w ∧
        let st1 := foldl (Impr.update_one w 3 1) (set_t wedge_state (t wedge_state + 1))
                     (elements (Base.shared_neighborhood (S_edges wedge_state) 3 1)) in
        tau r = tau st1 ∧ tau_vertices r = tau_vertices st1 ∧ t r = t wedge_state + 1 ∧
        ∃ adm st2, Impr._sample_edge (mk_config "g.txt" 3 true false) (rnd_zero (t wedge_state + 1)) st1
                     = Ok (adm, st2) ∧
          r = (if adm then set_S st2 ({[[3; 1]]} ∪ S_edges st2) else st2)
  | Err _ => False
  end ∧
  A3._get_edge (list_ascii_of_string "3 1") = Ok [3; 1] ∧
  match A3.run_line (mk_config "g.txt" 3 true false) (fun _ => (true, 0%nat)) wedge_state "3 1" with
  | Ok r =>
      ∃ st1, A3._update_counters (mk_config "g.txt" 3 true false) [3; 1]
               (set_t wedge_state (t wedge_state + 1)) = Ok st1 ∧
        tau r = tau st1 ∧ tau_vertices r = tau_vertices st1 ∧ t r = t wedge_state + 1 ∧
        ∃ adm st2, A3._sample_edge (mk_config "g.txt" 3 true false) (true, 0%nat) st1 = Ok (adm, st2) ∧
          r = (if adm then set_S st2 ({[[3; 1]]} ∪ S_edges st2) else st2)
  | Err _ => False
  end.
Proof.
  destruct (impr_counts_every_edge (mk_config "g.txt" 3 true false)) as [Hi Ha].
  assert (He : A3._get_edge (list_ascii_of_string "3 1") = Ok [3; 1]) by (vm_compute; reflexivity).
  split; [|split; [exact He|]].
  - destruct (Impr.process_edge _ _ _ _) as [r|e] eqn:E.
    + exact (Hi rnd_zero wedge_state r 3 1 E).
    + vm_compute in E. discriminate E.
  - destruct (A3.run_line _ _ _ _) as [r|e] eqn:E.
    + exact (Ha (fun _ => (true, 0%nat)) wedge_state r "3 1"%string [3; 1] He E).
    + vm_compute in E. discriminate E.
Defined.

(** C5 (counterexample): with [M = 3], the float results of [xi] are
    not strictly increasing past [M]: TRIEST-BASE gives the same value
    at [t = 27021597764222978] and at the next [t], and [TriestImpr]
    (and likewise [eta] of Asiignment3) at [t = 2^55] and [2^55 + 1];
    all four calls return a value. *)
Lemma scaling_not_strict :
  xi_base 3 27021597764222978 = xi_base 3 27021597764222979 ∧
  match xi_base 3 27021597764222978 with Ok _ => True | Err _ => False end ∧
  xi_impr 3 (2 ^ 55) = xi_impr 3 (2 ^ 55 + 1) ∧
  match xi_impr 3 (2 ^ 55) with Ok _ => True | Err _ => False end ∧
  eta_a3 3 (2 ^ 55) = eta_a3 3 (2 ^ 55 + 1).
Proof. vm_compute. repeat split. Qed.

(** C5 (amended): for [M >= 3], [xi] of TRIEST-BASE and of [TriestImpr]
    are [1.0] for every [t <= M], and [eta] of [TriestImproved] is [1.0]
    for [0 <= t <= M]; for [M < t1 <= t2], each of the three gives at
    [t2] a value at least its value at [t1] (when neither call raises):
    the scaling factors are non-decreasing past [M], not strictly
    increasing. *)
Theorem scaling_factors_boundary_monotone (M0 : Z) :
  3 ≤ M0 →
  (∀ t, t ≤ M0 → xi_base M0 t = Ok one) ∧
  (∀ t, t ≤ M0 → xi_impr M0 t = Ok one) ∧
  (∀ t, 0 ≤ t → t ≤ M0 → eta_a3 M0 t = Ok one) ∧
  (∀ t1 t2 x1 x2, M0 < t1 → t1 ≤ t2 → xi_base M0 t1 = Ok x1 → xi_base M0 t2 = Ok x2 →
     float_leb x1 x2 = true) ∧
  (∀ t1 t2 x1 x2, M0 < t1 → t1 ≤ t2 → xi_impr M0 t1 = Ok x1 → xi_impr M0 t2 = Ok x2 →
     float_leb x1 x2 = true) ∧
  (∀ t1 t2 x1 x2, M0 < t1 → t1 ≤ t2 → eta_a3 M0 t1 = Ok x1 → eta_a3 M0 t2 = Ok x2 →
     float_leb x1 x2 = true).
Proof.
  intros HM.
  assert (HD3 : 0 < M0 * (M0 - 1) * (M0 - 2)) by nia.
  assert (HD2 : 0 < M0 * (M0 - 1)) by nia.
  split; [|split; [|split; [|split; [|split]]]].
  - intros t Ht. unfold xi_base. rewrite (proj2 (Z.leb_le t M0) Ht). done.
  - intros t Ht. unfold xi_impr. destruct (Z.ltb_spec t 3); [done|].
    apply max_one_ratio_le_one; [apply consecutive_product_nonneg|nia|done].
  - intros t Ht0 Ht. unfold eta_a3.
    apply max_one_ratio_le_one; [apply consecutive_product_nonneg| |done].
    destruct (Z.le_gt_cases t 1); nia.
  - intros t1 t2 x1 x2 H1 H12. unfold xi_base.
    rewrite (proj2 (Z.leb_gt t1 M0) H1), (proj2 (Z.leb_gt t2 M0)) by lia.
    apply max_one_ratio_mono; [| |done].
    + apply Z.mul_nonneg_nonneg; [apply Z.mul_nonneg_nonneg|]; lia.
    + apply Z.mul_le_mono_nonneg; [apply Z.mul_nonneg_nonneg; lia|
        apply Z.mul_le_mono_nonneg; lia|lia|lia].
  - intros t1 t2 x1 x2 H1 H12. unfold xi_impr.
    destruct (Z.ltb_spec t1 3); [lia|]. destruct (Z.ltb_spec t2 3); [lia|].
    apply max_one_ratio_mono; [nia|nia|done].
  - intros t1 t2 x1 x2 H1 H12. unfold eta_a3.
    apply max_one_ratio_mono; [nia|nia|done].
Qed.

Lemma scaling_factors_boundary_monotone_witness :
  3 ≤ 3 ∧ xi_base 3 2 = Ok one ∧ xi_impr 3 3 = Ok one ∧ eta_a3 3 0 = Ok one ∧
  match xi_impr 3 4, xi_impr 3 9 with
  | Ok x1, Ok x2 => float_leb x1 x2 = true
  | _, _ => True
  end.
Proof.
  destruct (scaling_factors_boundary_monotone 3 ltac:(lia)) as (Hb & Hi & He & _ & Hm & _).
  split; [lia|]. split; [apply Hb; lia|]. split; [apply Hi; lia|]. split; [apply He; lia|].
  destruct (xi_impr 3 4) as [x1|] eqn:E1; [|exact I].
  destruct (xi_impr 3 9) as [x2|] eqn:E2; [|exact I].
  exact (Hm 4 9 x1 x2 ltac:(lia) ltac:(lia) E1 E2).
Defined.

(** C4: in the improved variants an eviction never touches the counters
    ([_sample_edge] of [TriestImpr] and of [TriestImproved] leaves [tau]
    and the per-vertex map as they are), and along every run from a
    freshly constructed estimator, [tau] and every per-vertex counter
    (read as the [defaultdict] does, missing keys being 0) at any later
    point of the stream are at least their values at any earlier point. *)
Theorem improved_counters_never_decrease :
  (∀ cfg ri st adm st', Impr._sample_edge cfg ri st = Ok (adm, st') →
     tau st' = tau st ∧ tau_vertices st' = tau_vertices st) ∧
  (∀ cfg bi st adm st', A3._sample_edge cfg bi st = Ok (adm, st') →
     tau st' = tau st ∧ tau_vertices st' = tau_vertices st) ∧
  (∀ file0 M0 verbose0 skip0 (rnd : Z -> Z * nat) cfg st0 lines1 lines2 sc1 sc2,
     TriestImpr_new file0 M0 verbose0 skip0 = Ok (cfg, st0) →
     run_lines (Impr.run_line cfg rnd) (st0, 0) lines1 = Ok sc1 →
     run_lines (Impr.run_line cfg rnd) sc1 lines2 = Ok sc2 →
     float_leb (tau sc1.1) (tau sc2.1) = true ∧
     ∀ x, float_leb (Impr.dd_get (tau_vertices sc1.1) x) (Impr.dd_get (tau_vertices sc2.1) x) = true) ∧
  (∀ file0 M0 verbose0 (rnd : Z -> bool * nat) cfg st0 lines1 lines2 st1 st2,
     TriestImproved_new file0 M0 verbose0 = Ok (cfg, st0) →
     run_lines (A3.run_line cfg rnd) st0 lines1 = Ok st1 →
     run_lines (A3.run_line cfg rnd) st1 lines2 = Ok st2 →
     float_leb (tau st1) (tau st2) = true ∧
     ∀ x, float_leb (Impr.dd_get (tau_vertices st1) x) (Impr.dd_get (tau_vertices st2) x) = true).
Proof.
  split; [|split; [|split]].
  - intros cfg ri st adm st' H. apply impr_sample_edge_shape in H as [_ H]. exact H.
  - intros cfg bi st adm st' H. apply a3_sample_edge_counters in H as (H1 & H2 & _). done.
  - intros file0 M0 verbose0 skip0 rnd cfg st0 lines1 lines2 sc1 sc2 [= <- <-] H1 H2.
    assert (G : ∀ a b l, Impr.run_line (mk_config file0 M0 verbose0 skip0) rnd a l = Ok b →
                  grows a.1 b.1) by (intros a b l; apply impr_run_line_grows).
    destruct (run_lines_grows fst _ _ _ _ G H1 ltac:(apply counters_ok_init)) as [Hok1 _].
    exact (proj2 (run_lines_grows fst _ _ _ _ G H2 Hok1)).
  - intros file0 M0 verbose0 rnd cfg st0 lines1 lines2 st1 st2 [= <- <-] H1 H2.
    assert (G : ∀ a b l, A3.run_line (mk_config file0 M0 verbose0 false) rnd a l = Ok b →
                  grows a b) by (intros a b l; apply a3_run_line_grows).
    destruct (run_lines_grows id _ _ _ _ G H1 ltac:(apply counters_ok_init)) as [Hok1 _].
    exact (proj2 (run_lines_grows id _ _ _ _ G H2 Hok1)).
Qed.

Lemma improved_counters_never_decrease_witness :
  match run_lines (Impr.run_line (mk_config "g.txt" 3 true true) rnd_zero)
          (mk_state ∅ 0 (Fin 0) ∅ (Some ∅), 0) (take 4 sample_stream) with
  | Ok sc1 =>
      match run_lines (Impr.run_line (mk_config "g.txt" 3 true true) rnd_zero) sc1 (drop 4 sample_stream) with
      | Ok sc2 =>
          float_leb (tau sc1.1) (tau sc2.1) = true ∧
          ∀ x, float_leb (Impr.dd_get (tau_vertices sc1.1) x) (Impr.dd_get (tau_vertices sc2.1) x) = true
      | Err _ => False
      end
  | Err _ => False
  end.
Proof.
  destruct improved_counters_never_decrease as (_ & _ & Hi & _).
  destruct (run_lines _ _ (take 4 sample_stream)) as [sc1|e] eqn:E1; [|vm_compute in E1; discriminate E1].
  destruct (run_lines _ sc1 (drop 4 sample_stream)) as [sc2|e] eqn:E2.
  - exact (Hi "g.txt"%string 3 true true rnd_zero _ _ _ _ sc1 sc2 eq_refl E1 E2).
  - vm_compute in E1. injection E1 as <-. vm_compute in E2. discriminate E2.
Defined.

(* ------------------------------------------------------------------ *)
(** ** Further properties of the code *)

(** Counters of [TriestBase] (HW3) with [skip_duplicates=True]: after
    any run from a fresh estimator that does not raise, [tau] is the
    number of triangles of the sample [S], and [tau_vertices.get(x, 0)]
    the number of those triangles that contain [x]. *)
Theorem base_counts_exact (file0 : string) (M0 : Z) (verbose0 : bool) (cfg : config) (st0 : state Z)
    (rnd : Z -> Z * nat) (lines : list string) (st : state Z) (k : Z) :
  TriestBase_new file0 M0 verbose0 true = Ok (cfg, st0) →
  run_lines (Base.run_line cfg rnd) (st0, 0) lines = Ok (st, k) →
  tau st = Z.of_nat (size (triangles (S_edges st))) ∧
  ∀ x, Base.dd_get (tau_vertices st) x =
       Z.of_nat (size (filter (fun tr : list Z => x ∈ tr) (triangles (S_edges st)))).
Proof. apply base_exact_run. Qed.

Lemma base_counts_exact_witness :
  match run_lines (Base.run_line (mk_config "g.txt" 3 false true) rnd_zero)
          (mk_state ∅ 0 0 ∅ (Some ∅), 0) sample_stream with
  | Ok (st, _) => tau st = Z.of_nat (size (triangles (S_edges st)))
  | Err _ => False
  end.
Proof.
  destruct (run_lines _ _ _) as [[st k]|e] eqn:E.
  - exact (proj1 (base_counts_exact "g.txt" 3 false _ _ rnd_zero sample_stream st k eq_refl E)).
  - vm_compute in E. discriminate E.
Defined.

(** Fill phase of [TriestBase] (HW3) with [skip_duplicates=True]: as
    long as [t <= M], [S] holds exactly the distinct edges of the lines
    read so far and [t] is their number. *)
Theorem base_fill_phase (file0 : string) (M0 : Z) (verbose0 : bool) (cfg : config) (st0 : state Z)
    (rnd : Z -> Z * nat) (lines : list string) (st : state Z) (k : Z) :
  TriestBase_new file0 M0 verbose0 true = Ok (cfg, st0) →
  run_lines (Base.run_line cfg rnd) (st0, 0) lines = Ok (st, k) →
  t st ≤ M0 →
  S_edges st = stream_edges lines ∧ t st = Z.of_nat (size (stream_edges lines)).
Proof. intros Hnew Hrun Hle. exact (proj2 (base_fill_run _ _ _ _ _ _ _ _ _ Hnew Hrun) Hle). Qed.

Lemma base_fill_phase_witness :
  match run_lines (Base.run_line (mk_config "g.txt" 10 false true) rnd_zero)
          (mk_state ∅ 0 0 ∅ (Some ∅), 0) sample_stream with
  | Ok (st, _) => S_edges st = stream_edges sample_stream ∧ t st = Z.of_nat (size (stream_edges sample_stream))
  | Err _ => False
  end.
Proof.
  assert (Hb : match run_lines (Base.run_line (mk_config "g.txt" 10 false true) rnd_zero)
                       (mk_state ∅ 0 0 ∅ (Some ∅), 0) sample_stream with
               | Ok (st, _) => Z.leb (t st) 10 | Err _ => false end = true)
    by (vm_compute; reflexivity).
  destruct (run_lines _ _ _) as [[st k]|e] eqn:E; [|discriminate Hb].
  exact (base_fill_phase "g.txt" 10 false _ _ rnd_zero sample_stream st k eq_refl E (proj1 (Z.leb_le _ _) Hb)).
Defined.

(** Fill phase of [TriestImpr] (HW3) with [skip_duplicates=True]: as
    long as [t <= M], [S] holds exactly the distinct edges of the lines
    read so far and [t] is their number. *)
Theorem impr_fill_phase (file0 : string) (M0 : Z) (verbose0 : bool) (cfg : config) (st0 : state pyfloat)
    (rnd : Z -> Z * nat) (lines : list string) (st : state pyfloat) (k : Z) :
  TriestImpr_new file0 M0 verbose0 true = Ok (cfg, st0) →
  run_lines (Impr.run_line cfg rnd) (st0, 0) lines = Ok (st, k) →
  t st ≤ M0 →
  S_edges st = stream_edges lines ∧ t st = Z.of_nat (size (stream_edges lines)).
Proof. intros Hnew Hrun Hle. exact (proj2 (impr_fill_run _ _ _ _ _ _ _ _ _ Hnew Hrun) Hle). Qed.

Lemma impr_fill_phase_witness :
  match run_lines (Impr.run_line (mk_config "g.txt" 10 false true) rnd_zero)
          (mk_state ∅ 0 (Fin 0) ∅ (Some ∅), 0) sample_stream with
  | Ok (st, _) => S_edges st = stream_edges sample_stream ∧ t st = Z.of_nat (size (stream_edges sample_stream))
  | Err _ => False
  end.
Proof.
  assert (Hb : match run_lines (Impr.run_line (mk_config "g.txt" 10 false true) rnd_zero)
                       (mk_state ∅ 0 (Fin 0) ∅ (Some ∅), 0) sample_stream with
               | Ok (st, _) => Z.leb (t st) 10 | Err _ => false end = true)
    by (vm_compute; reflexivity).
  destruct (run_lines _ _ _) as [[st k]|e] eqn:E; [|discriminate Hb].
  exact (impr_fill_phase "g.txt" 10 false _ _ rnd_zero sample_stream st k eq_refl E (proj1 (Z.leb_le _ _) Hb)).
Defined.

(** [TriestBase.run] and [get_local_estimate] (HW3) with
    [skip_duplicates=True]: when the stream has at most [M] distinct
    edges, [run] returns the number of triangles of the graph of the
    stream, as a float, and [get_local_estimate(v)] the number of those
    triangles that contain [v]. *)
Theorem base_fill_estimate (file0 : string) (M0 : Z) (verbose0 : bool) (cfg : config) (st0 : state Z)
    (rnd : Z -> Z * nat) (lines : list string) (st : state Z) (k : Z) (est : pyfloat) :
  TriestBase_new file0 M0 verbose0 true = Ok (cfg, st0) →
  Base.run cfg rnd st0 lines = Ok (st, k, est) →
  t st ≤ M0 →
  py_float_of_int (Z.of_nat (size (triangles (stream_edges lines)))) = Ok est ∧
  ∀ v, Base.get_local_estimate cfg st v =
       py_float_of_int (Z.of_nat (size (filter (fun tr : list Z => v ∈ tr) (triangles (stream_edges lines))))).
Proof.
  intros Hnew Hrun Hle. pose proof Hnew as Hcfg. injection Hcfg as <- _.
  unfold Base.run in Hrun.
  destruct (run_lines (Base.run_line _ rnd) (st0, 0) lines) as [[st1 k1]|] eqn:Hl; cbn [rbind] in Hrun; [|done].
  destruct (base_exact_run _ _ _ _ _ _ _ _ _ Hnew Hl) as [Htau Hx].
  destruct (base_fill_run _ _ _ _ _ _ _ _ _ Hnew Hl) as [_ Hfill].
  destruct (Base.xi _ st1) as [x|] eqn:Hxi; cbn [rbind] in Hrun; [|done].
  destruct (py_float_of_int (tau st1)) as [y|] eqn:Hy; cbn [rbind] in Hrun; [|done].
  injection Hrun as <- <- <-.
  rewrite base_xi_fill in Hxi by exact Hle. injection Hxi as <-.
  destruct (Hfill Hle) as [HS _]. rewrite <- HS.
  split.
  - rewrite <- Htau, Hy. rewrite (float_mul_one _ _ Hy). done.
  - intros v. unfold Base.get_local_estimate. rewrite base_xi_fill by exact Hle. cbn [rbind].
    rewrite <- Hx. apply float_of_int_mul_one.
Qed.

Lemma base_fill_estimate_witness :
  match Base.run (mk_config "g.txt" 10 false true) rnd_zero (mk_state ∅ 0 0 ∅ (Some ∅)) sample_stream with
  | Ok (st, k, est) =>
      py_float_of_int (Z.of_nat (size (triangles (stream_edges sample_stream)))) = Ok est ∧
      Base.get_local_estimate (mk_config "g.txt" 10 false true) st 1 =
        py_float_of_int (Z.of_nat (size (filter (fun tr : list Z => 1 ∈ tr) (triangles (stream_edges sample_stream)))))
  | Err _ => False
  end.
Proof.
  assert (Hb : match Base.run (mk_config "g.txt" 10 false true) rnd_zero (mk_state ∅ 0 0 ∅ (Some ∅)) sample_stream with
               | Ok (st, _, _) => Z.leb (t st) 10 | Err _ => false end = true)
    by (vm_compute; reflexivity).
  destruct (Base.run _ _ _ _) as [[[st k] est]|e] eqn:E; [|discriminate Hb].
  destruct (base_fill_estimate "g.txt" 10 false _ _ rnd_zero sample_stream st k est eq_refl E
              (proj1 (Z.leb_le _ _) Hb)) as [H1 H2].
  exact (conj H1 (H2 1)).
Defined.

(** [Triest.xi] (Asiignment3) has no [t <= M] branch: for [M >= 3] and
    [t >= 0] it still gives the value of the HW3 [xi], 1.0 up to [M];
    for [M] in [{0, 1, 2}] it raises ZeroDivisionError whatever [t]. *)
Theorem a3_xi_matches_hw3 (cfg : config) (st : state Z) :
  (0 ≤ t st → 3 ≤ M cfg → A3Base.xi cfg st = xi_base (M cfg) (t st)) ∧
  (0 ≤ M cfg ≤ 2 → A3Base.xi cfg st = Err ZeroDivisionError).
Proof.
  split.
  - intros Ht HM. unfold A3Base.xi, xi_base. destruct (Z.leb_spec (t st) (M cfg)) as [Hle|]; [|done].
    apply max_one_ratio_le_one.
    + destruct (Z.le_gt_cases 2 (t st)).
      * apply Z.mul_nonneg_nonneg; [apply Z.mul_nonneg_nonneg|]; lia.
      * assert (t st = 0 ∨ t st = 1) as [-> | ->] by lia; done.
    + apply cubic_mono; lia.
    + pose proof (cubic_mono 3 (M cfg) ltac:(lia) HM HM). simpl in *. lia.
  - intros HM. unfold A3Base.xi.
    assert (M cfg = 0 ∨ M cfg = 1 ∨ M cfg = 2) as [-> | [-> | ->]] by lia; done.
Qed.

Lemma a3_xi_matches_hw3_witness :
  A3Base.xi (mk_config "g.txt" 3 false false) (mk_state ∅ 2 0 ∅ None) = Ok one ∧
  A3Base.xi (mk_config "g.txt" 2 false false) (mk_state ∅ 2 0 ∅ None) = Err ZeroDivisionError.
Proof.
  split.
  - refine (eq_trans (proj1 (a3_xi_matches_hw3 (mk_config "g.txt" 3 false false) (mk_state ∅ 2 0 ∅ None)) _ _) _);
      simpl; [lia|lia|reflexivity].
  - apply (proj2 (a3_xi_matches_hw3 (mk_config "g.txt" 2 false false) (mk_state ∅ 2 0 ∅ None))). simpl. lia.
Defined.



(** A line with fewer than two distinct vertices (a blank line or a
    self-loop) does not raise in [TriestBase.run] (Asiignment3): while
    [t + 1 <= M], with [verbose] off, it only increments [t] and adds its
    frozenset of zero or one vertex to [S], counters untouched. *)
Theorem a3_base_degenerate_line (cfg : config) (rnd : Z -> bool * nat) (st : state Z) (line : string) (e : list Z) :
  A3._get_edge (list_ascii_of_string line) = Ok e → (length e < 2)%nat →
  verbose cfg = false → t st + 1 ≤ M cfg →
  A3Base.run_line cfg rnd st line = Ok (set_S (set_t st (t st + 1)) ({[e]} ∪ S_edges st)).
Proof.
  intros Hg Hlen Hv Hle. unfold A3Base.run_line. rewrite Hg. cbn [rbind].
  unfold A3Base._sample_edge. cbn [t set_t]. apply Z.leb_le in Hle. rewrite Hle. cbn [rbind].
  unfold A3Base._update_counters. rewrite length_map.
  apply Nat.ltb_lt in Hlen. rewrite Hlen. cbn [rbind]. rewrite Hv. done.
Qed.

Lemma a3_base_degenerate_line_witness :
  A3Base.run_line (mk_config "g.txt" 3 false false) rnd_evict (mk_state {[[1; 5]]} 1 0 ∅ None) "5 5"%string =
  Ok (mk_state {[[5]; [1; 5]]} 2 0 ∅ None).
Proof.
  refine (eq_trans (a3_base_degenerate_line (mk_config "g.txt" 3 false false) rnd_evict
                     (mk_state {[[1; 5]]} 1 0 ∅ None) "5 5"%string [5] eq_refl _ eq_refl _) _);
    try (simpl; lia).
  reflexivity.
Defined.

(** Counters of [TriestBase] (Asiignment3): on a stream whose lines each
    hold two distinct integers and name pairwise different edges, after
    any run that does not raise, [tau] is the number of triangles of [S]
    and [tau_vertices[x]] the number of those that contain [x]. *)
Theorem a3_base_counts_exact (file0 : string) (M0 : Z) (verbose0 : bool) (cfg : config) (st0 : state Z)
    (rnd : Z -> bool * nat) (lines : list string) (es : list (list Z)) (st : state Z) :
  A3Base.TriestBase_new file0 M0 verbose0 = Ok (cfg, st0) →
  Forall2 (fun line e => A3._get_edge (list_ascii_of_string line) = Ok e ∧ proper_edge e) lines es →
  NoDup es →
  run_lines (A3Base.run_line cfg rnd) st0 lines = Ok st →
  tau st = Z.of_nat (size (triangles (S_edges st))) ∧
  ∀ x, Base.dd_get (tau_vertices st) x =
       Z.of_nat (size (filter (fun tr : list Z => x ∈ tr) (triangles (S_edges st)))).
Proof.
  intros [= <- <-] Hf Hnd Hrun. refine (a3b_run_lines_exact _ rnd lines es Hf Hnd _ st _ _ Hrun).
  - unfold exact_counts. cbn [S_edges tau tau_vertices]. rewrite triangles_empty.
    split; [done|]. intros x. rewrite filter_empty_L; [done|apply _].
  - intros e He. set_solver.
Qed.

Lemma a3_base_counts_exact_witness :
  match run_lines (A3Base.run_line (mk_config "g.txt" 3 false false) rnd_evict) (mk_state ∅ 0 0 ∅ None) k4_lines with
  | Ok st => tau st = Z.of_nat (size (triangles (S_edges st)))
  | Err _ => False
  end.
Proof.
  assert (Hb : match run_lines (A3Base.run_line (mk_config "g.txt" 3 false false) rnd_evict)
                       (mk_state ∅ 0 0 ∅ None) k4_lines with Ok _ => true | Err _ => false end = true)
    by (vm_compute; reflexivity).
  destruct (run_lines _ _ _) as [st|e] eqn:E; [|discriminate Hb].
  refine (proj1 (a3_base_counts_exact "g.txt" 3 false _ _ rnd_evict k4_lines
           [frozenset [1; 2]; frozenset [2; 3]; frozenset [3; 1]; frozenset [1; 4]; frozenset [4; 2]; frozenset [3; 4]]
           st eq_refl _ _ E)).
  - unfold k4_lines. repeat (constructor; [split; [vm_compute; reflexivity | apply proper_edge_pair; lia] |]).
    constructor.
  - apply (bool_decide_unpack _). vm_compute. reflexivity.
Defined.
